(** * bomiom: address validation, recency badges, filtering and envy sorting

    A shallow embedding of the derived-data logic of [src/App.tsx]:
    - [validateSearchInput] / [handleSubmit]   (HomePage)
    - [isRecentUpdate], [computeCategoryBadges] (helpers)
    - [filteredBenefits], [displayBenefits]     (AllLocalBenefitsPage)

    JavaScript strings are sequences of UTF-16 code units; they are modelled
    as [list Z].  JavaScript numbers holding time values are IEEE-754
    doubles; they are modelled with the kernel's primitive floats.  The
    popularity counters are integers; they are modelled as [Z].  Arrays are
    values where the code only reads them, and references into a store
    where it sorts one in place. *)

From Stdlib Require Import ZArith List Bool Lia String Ascii.
From Stdlib Require Import Sorted Permutation.
From Stdlib Require Import Uint63 Floats.
From stdpp Require Import base option list gmap.
Import ListNotations.

Local Open Scope Z_scope.

(** Splits a conjunction into its conjuncts, and nothing else. *)
Ltac split_all := repeat match goal with |- _ /\ _ => split end.

(** Closes one case of a decision list: each conjunct is a fact at hand
    or holds by computation. *)
Ltac case_done := split_all; first [assumption | reflexivity].

(* ===================================================================== *)
(** ** JavaScript strings *)
(* ===================================================================== *)

Module JS.

(** A string value: its UTF-16 code units. *)
Definition jsstring := list Z.

(** [utf16 s] reads the Rocq literal [s] (UTF-8 bytes) as the JavaScript
    string with the same text: code points below U+10000 are one code unit,
    the others a surrogate pair.  It is only used to write literals. *)
Fixpoint utf16 (s : string) : jsstring :=
  match s with
  | EmptyString => []
  | String a0 r0 =>
    let b0 := Z.of_N (N_of_ascii a0) in
    if b0 <? 128 then b0 :: utf16 r0
    else if b0 <? 224 then
      match r0 with
      | String a1 r1 =>
        let b1 := Z.of_N (N_of_ascii a1) in
        ((b0 mod 32) * 64 + b1 mod 64) :: utf16 r1
      | EmptyString => []
      end
    else if b0 <? 240 then
      match r0 with
      | String a1 (String a2 r2) =>
        let b1 := Z.of_N (N_of_ascii a1) in
        let b2 := Z.of_N (N_of_ascii a2) in
        ((b0 mod 16) * 4096 + (b1 mod 64) * 64 + b2 mod 64) :: utf16 r2
      | _ => []
      end
    else
      match r0 with
      | String a1 (String a2 (String a3 r3)) =>
        let b1 := Z.of_N (N_of_ascii a1) in
        let b2 := Z.of_N (N_of_ascii a2) in
        let b3 := Z.of_N (N_of_ascii a3) in
        let cp := (b0 mod 8) * 262144 + (b1 mod 64) * 4096
                  + (b2 mod 64) * 64 + b3 mod 64 in
        (55296 + (cp - 65536) / 1024) :: (56320 + (cp - 65536) mod 1024)
          :: utf16 r3
      | _ => []
      end
  end.

(** ECMAScript WhiteSpace and LineTerminator code points: what
    [String.prototype.trim] strips and what the class [\s] matches. *)
Definition isWhiteSpace (c : Z) : bool :=
  (c =? 9) || (c =? 10) || (c =? 11) || (c =? 12) || (c =? 13)
  || (c =? 32) || (c =? 160) || (c =? 5760)
  || ((8192 <=? c) && (c <=? 8202))
  || (c =? 8232) || (c =? 8233) || (c =? 8239) || (c =? 8287)
  || (c =? 12288) || (c =? 65279).

Fixpoint dropWhile (p : Z -> bool) (s : jsstring) : jsstring :=
  match s with
  | [] => []
  | c :: s' => if p c then dropWhile p s' else s
  end.

Definition trimStart (s : jsstring) : jsstring := dropWhile isWhiteSpace s.
Definition trimEnd (s : jsstring) : jsstring :=
  rev (dropWhile isWhiteSpace (rev s)).

(** [s.trim()] *)
Definition trim (s : jsstring) : jsstring := trimEnd (trimStart s).

(** [s.startsWith(p)] *)
Fixpoint startsWith (s p : jsstring) : bool :=
  match p, s with
  | [], _ => true
  | _ :: _, [] => false
  | c :: p', d :: s' => (c =? d) && startsWith s' p'
  end.

(** [s.endsWith(p)] *)
Definition endsWith (s p : jsstring) : bool := startsWith (rev s) (rev p).

(** [s.includes(sub)]: [sub] occurs at some position of [s]. *)
Fixpoint includes (s sub : jsstring) : bool :=
  startsWith s sub
  || match s with
     | [] => false
     | _ :: s' => includes s' sub
     end.

(** [s.split(/\s+/)].  A separator is a maximal run of white space; the
    pieces between separators are returned, the empty piece before a leading
    and after a trailing separator included, and [""] splits into [[""]].
    [tok] is the current piece, reversed; [in_sep] tells that the previous
    code unit was white space. *)
Fixpoint split_ws_go (s tok : jsstring) (in_sep : bool) : list jsstring :=
  match s with
  | [] => [rev tok]
  | c :: s' =>
    if isWhiteSpace c
    then if in_sep then split_ws_go s' [] true
         else rev tok :: split_ws_go s' [] true
    else split_ws_go s' (c :: tok) false
  end.

Definition split_ws (s : jsstring) : list jsstring := split_ws_go s [] false.

(** [s.split(sep)] for a separator [sep] of one code unit. *)
Fixpoint split_char_go (sep : Z) (s tok : jsstring) : list jsstring :=
  match s with
  | [] => [rev tok]
  | c :: s' =>
    if c =? sep then rev tok :: split_char_go sep s' []
    else split_char_go sep s' (c :: tok)
  end.

Definition split_char (sep : Z) (s : jsstring) : list jsstring :=
  split_char_go sep s [].

(** [a === b] on strings. *)
Definition str_eqb (a b : jsstring) : bool :=
  bool_decide (a = b).

(** Occurrence as a substring, declaratively. *)
Definition Substring (sub s : jsstring) : Prop :=
  exists pre post, s = pre ++ sub ++ post.

Definition Suffix (suf s : jsstring) : Prop :=
  exists pre, s = pre ++ suf.

End JS.

Import JS.

(** The code unit of a one-character literal. *)
Definition code (s : string) : Z := hd 0 (utf16 s).

(* ===================================================================== *)
(** ** Regular expressions *)
(* ===================================================================== *)

Module RegExp.

(** The fragment of the pattern language that [typoRegex] uses: character
    ranges, concatenation, alternation and iteration. *)
Inductive regex : Type :=
| Void
| Eps
| Range (lo hi : Z)
| Cat (r1 r2 : regex)
| Alt (r1 r2 : regex)
| Star (r : regex).

Definition Chr (c : Z) : regex := Range c c.
(** [r+] *)
Definition Plus (r : regex) : regex := Cat r (Star r).

Fixpoint nullable (r : regex) : bool :=
  match r with
  | Void => false
  | Eps => true
  | Range _ _ => false
  | Cat r1 r2 => nullable r1 && nullable r2
  | Alt r1 r2 => nullable r1 || nullable r2
  | Star _ => true
  end.

(** The derivative of [r] by the code unit [c]. *)
Fixpoint deriv (c : Z) (r : regex) : regex :=
  match r with
  | Void => Void
  | Eps => Void
  | Range lo hi => if (lo <=? c) && (c <=? hi) then Eps else Void
  | Cat r1 r2 =>
    if nullable r1
    then Alt (Cat (deriv c r1) r2) (deriv c r2)
    else Cat (deriv c r1) r2
  | Alt r1 r2 => Alt (deriv c r1) (deriv c r2)
  | Star r1 => Cat (deriv c r1) (Star r1)
  end.

(** [matches r s]: the whole of [s] is a word of [r]. *)
Fixpoint matches (r : regex) (s : jsstring) : bool :=
  match s with
  | [] => nullable r
  | c :: s' => matches (deriv c r) s'
  end.

(** The suffixes of [s], longest first: the positions at which a match
    of an unanchored pattern may start. *)
Fixpoint suffixes (s : jsstring) : list jsstring :=
  s :: match s with
       | [] => []
       | _ :: s' => suffixes s'
       end.

(** [/r$/.test(s)] for a pattern without flags: the match may start
    anywhere and must reach the end of [s].  Without the [g] and [y] flags
    [test] keeps no state between calls. *)
Definition test_dollar (r : regex) (s : jsstring) : bool :=
  existsb (matches r) (suffixes s).

(** The words of a pattern, declaratively. *)
Inductive Lang : regex -> jsstring -> Prop :=
| LEps : Lang Eps []
| LRange lo hi c : lo <= c <= hi -> Lang (Range lo hi) [c]
| LCat r1 r2 s1 s2 : Lang r1 s1 -> Lang r2 s2 -> Lang (Cat r1 r2) (s1 ++ s2)
| LAltL r1 r2 s : Lang r1 s -> Lang (Alt r1 r2) s
| LAltR r1 r2 s : Lang r2 s -> Lang (Alt r1 r2) s
| LStar0 r : Lang (Star r) []
| LStarS r s1 s2 : Lang r s1 -> Lang (Star r) s2 -> Lang (Star r) (s1 ++ s2).

End RegExp.

(* ===================================================================== *)
(** ** HomePage: the address validator *)
(* ===================================================================== *)

Module Home.

(** The component state the validator and the submit handler touch, and
    the log of the calls made to the [onSearch] callback. *)
Record state : Type := mkState {
  input : jsstring;
  errorMsg : jsstring;
  searched : list jsstring
}.

(** Computations over the component state. *)
Definition M (A : Type) : Type := state -> A * state.
#[export] Instance M_ret : MRet M := fun A a st => (a, st).
#[export] Instance M_bind : MBind M :=
  fun A B k m st => let '(a, st') := m st in k a st'.

Definition setErrorMsg (m : jsstring) : M unit :=
  fun st => (tt, mkState (input st) m (searched st)).

Definition onSearch (region : jsstring) : M unit :=
  fun st => (tt, mkState (input st) (errorMsg st) (searched st ++ [region])).

(** The four messages, as the code units of the literals. *)
Definition msg_required : jsstring :=
  Eval vm_compute in utf16 "주소를 입력해주세요.".
Definition msg_spacing : jsstring :=
  Eval vm_compute in
    utf16 "띄어쓰기를 정확히 입력해주세요. (예: 경기도 성남시 수정구)".
Definition msg_both_levels : jsstring :=
  Eval vm_compute in
    utf16 "시/도와 시/군/구를 모두 입력해주세요. (예: 서울시 송파구)".
Definition msg_district : jsstring :=
  Eval vm_compute in
    utf16 "구 단위까지 상세하게 입력해주세요. (예: 경기도 성남시 분당구)".

(** [[가-힣]] *)
Definition hangul : RegExp.regex := RegExp.Range (code "가") (code "힣").

(** [/[가-힣]+(시|도)[가-힣]+(시|군|구)$/], the end anchor apart (it is
    part of [RegExp.test_dollar]). *)
Definition typoRegex : RegExp.regex :=
  RegExp.Cat (RegExp.Plus hangul)
    (RegExp.Cat (RegExp.Alt (RegExp.Chr (code "시")) (RegExp.Chr (code "도")))
      (RegExp.Cat (RegExp.Plus hangul)
        (RegExp.Alt (RegExp.Chr (code "시"))
          (RegExp.Alt (RegExp.Chr (code "군")) (RegExp.Chr (code "구")))))).

(** The [for (const part of parts)] loop: [true] when it leaves the
    function at some part. *)
Fixpoint typo_loop (parts : list jsstring) : bool :=
  match parts with
  | [] => false
  | part :: rest =>
    if RegExp.test_dollar typoRegex part then true else typo_loop rest
  end.

(** [parts[1].endsWith('시')]; it is evaluated only when [parts] has two
    elements ([&&] short-circuits). *)
Definition second_endsWith_si (parts : list jsstring) : bool :=
  match parts !! 1%nat with
  | Some p => endsWith p (utf16 "시")
  | None => false
  end.

Definition validateSearchInput (text : jsstring) : M bool :=
  let trimmed := trim text in
  if (length trimmed =? 0)%nat then
    setErrorMsg msg_required ;; mret false
  else if negb (includes trimmed (utf16 " ")) then
    setErrorMsg msg_spacing ;; mret false
  else
    let parts := split_ws trimmed in
    if typo_loop parts then
      setErrorMsg msg_spacing ;; mret false
    else if (length parts <? 2)%nat then
      setErrorMsg msg_both_levels ;; mret false
    else if (length parts =? 2)%nat && second_endsWith_si parts then
      setErrorMsg msg_district ;; mret false
    else mret true.

(** [get_input] reads the [input] state variable. *)
Definition get_input : M jsstring := fun st => (input st, st).

Definition handleSubmit : M unit :=
  text ← get_input;
  validateSearchInput text ≫= λ ok : bool,
  if ok then onSearch (trim text) else mret tt.

(** Outcomes of one validation, whatever the state it starts from. *)
Definition rejects (text reason : jsstring) : Prop :=
  forall st, validateSearchInput text st
             = (false, mkState (input st) reason (searched st)).

Definition accepts (text : jsstring) : Prop :=
  forall st, validateSearchInput text st = (true, st).

(** What a submit of [text] does to the log of searches. *)
Definition search_issued (text : jsstring) : Prop :=
  forall st, input st = text ->
    searched (snd (handleSubmit st)) = searched st ++ [trim text].

Definition no_search (text : jsstring) : Prop :=
  forall st, input st = text ->
    searched (snd (handleSubmit st)) = searched st.

Definition Hangul (c : Z) : Prop := code "가" <= c <= code "힣".

(** A token ending in two administrative levels written without a space:
    Korean characters, then 시 or 도, then Korean characters, then 시, 군 or
    구 as the last character. *)
Definition ConcatTypo (tok : jsstring) : Prop :=
  exists pre a x b y,
    tok = pre ++ a ++ [x] ++ b ++ [y]
    /\ a <> [] /\ Forall Hangul a
    /\ (x = code "시" \/ x = code "도")
    /\ b <> [] /\ Forall Hangul b
    /\ (y = code "시" \/ y = code "군" \/ y = code "구").

Definition HasWhiteSpace (s : jsstring) : Prop :=
  Exists (fun c => isWhiteSpace c = true) s.

(** The tokens of an address: the pieces of the trimmed text between runs
    of white space. *)
Definition tokens (text : jsstring) : list jsstring := split_ws (trim text).

(** The ordered rules of the validator, first failure winning, with the
    test of the second rule left open: [separated t] says that the trimmed
    text [t] passes it. *)
Definition ordered_rules (separated : jsstring -> Prop) (text : jsstring)
  : Prop :=
  let t := trim text in
  let toks := tokens text in
  (t = [] -> rejects text msg_required /\ no_search text)
  /\ (t <> [] -> ~ separated t -> rejects text msg_spacing /\ no_search text)
  /\ (t <> [] -> separated t -> Exists ConcatTypo toks ->
      rejects text msg_spacing /\ no_search text)
  /\ (t <> [] -> separated t -> ~ Exists ConcatTypo toks ->
      (length toks < 2)%nat ->
      rejects text msg_both_levels /\ no_search text)
  /\ (t <> [] -> separated t -> ~ Exists ConcatTypo toks ->
      ~ (length toks < 2)%nat ->
      (exists a b, toks = [a; b] /\ Suffix (utf16 "시") b) ->
      rejects text msg_district /\ no_search text)
  /\ (t <> [] -> separated t -> ~ Exists ConcatTypo toks ->
      ~ (length toks < 2)%nat ->
      ~ (exists a b, toks = [a; b] /\ Suffix (utf16 "시") b) ->
      accepts text /\ search_issued text).

(** The second rule as the specification words it: the trimmed text
    contains white space. *)
Definition rules_as_specified (text : jsstring) : Prop :=
  ordered_rules HasWhiteSpace text.

(** The second rule as the code tests it: the trimmed text contains the
    space character U+0020. *)
Definition rules_of_code (text : jsstring) : Prop :=
  ordered_rules (fun t => In (code " ") t) text.

End Home.

(* ===================================================================== *)
(** ** The data model *)
(* ===================================================================== *)

Module Types.

Inductive BenefitSource : Type := GOV_NATIONAL | GOV_LOCAL | PRIVATE.

Inductive CategoryType : Type :=
| ALL | GOV | FREE | DISCOUNT | PACKAGE | LIFESTYLE | SUBSCRIPTION | FINANCE.

Inductive UpdateType : Type := NEW | UPDATE.

(** An optional field ([field?: T]) is an [option].  The two counters hold
    integers; they are modelled as [Z]. *)
Record Benefit : Type := mkBenefit {
  id : jsstring;
  title : jsstring;
  description : jsstring;
  source : BenefitSource;
  tags : list jsstring;
  category : CategoryType;
  regionTarget : option jsstring;
  ctaLink : jsstring;
  isRecommended : option bool;
  lastUpdated : option jsstring;
  updateType : option UpdateType;
  likeCount : option Z;
  envyCount : option Z
}.

#[export] Instance CategoryType_eq_dec : EqDecision CategoryType.
Proof. solve_decision. Defined.

Definition CategoryType_index (c : CategoryType) : nat :=
  match c with
  | ALL => 0 | GOV => 1 | FREE => 2 | DISCOUNT => 3
  | PACKAGE => 4 | LIFESTYLE => 5 | SUBSCRIPTION => 6 | FINANCE => 7
  end%nat.

Definition CategoryType_of_index (n : nat) : option CategoryType :=
  match n with
  | 0 => Some ALL | 1 => Some GOV | 2 => Some FREE | 3 => Some DISCOUNT
  | 4 => Some PACKAGE | 5 => Some LIFESTYLE | 6 => Some SUBSCRIPTION
  | 7 => Some FINANCE | _ => None
  end%nat.

#[export] Program Instance CategoryType_countable : Countable CategoryType :=
  inj_countable CategoryType_index CategoryType_of_index _.
Next Obligation. intros []; reflexivity. Qed.

End Types.

Import Types.

(* ===================================================================== *)
(** ** The recency classifier *)
(* ===================================================================== *)

(** What [isRecentUpdate] asks of the JavaScript host: [Number(s)] on a
    string, and the time value of [new Date(year, month, day)], which is
    NaN for an invalid date and depends on the host's time zone. *)
Class Host : Type := mkHost {
  Number : jsstring -> float;
  Date_getTime : float -> float -> float -> float
}.

Module Recency.

Section WithHost.
Context `{Host}.

(** [now] is the time value of the [new Date()] that the call makes.
    Nothing in the [try] block throws, so the [catch] branch is dead. *)
Definition isRecentUpdate (now : float) (dateString : option jsstring)
  : bool :=
  match dateString with
  | None => false
  | Some ds =>
    if (length ds =? 0)%nat then false
    else
      let parts := split_char (code ".") ds in
      if negb (length parts =? 3)%nat then false
      else
        match parts with
        | [p0; p1; p2] =>
          let date := Date_getTime (Number p0) (Number p1 - 1) (Number p2) in
          if is_nan date then false
          else
            let diffTime := (now - date)%float in
            let diffDays := (diffTime / (1000 * 3600 * 24))%float in
            (0 <=? diffDays)%float && (diffDays <=? 30)%float
        | _ => false
        end
  end.

(** The date that the three fields denote, and the days elapsed since,
    as the classifier computes them. *)
Definition parsedDate (p0 p1 p2 : jsstring) : float :=
  Date_getTime (Number p0) (Number p1 - 1) (Number p2).

Definition elapsedDays (now : float) (p0 p1 p2 : jsstring) : float :=
  ((now - parsedDate p0 p1 p2) / 86400000)%float.

End WithHost.

End Recency.

(** A host for examples: the time zone is UTC and [Number] reads a field
    of decimal digits (anything else is NaN, the empty string is 0). *)
Module UTCHost.

Definition float_of_Z (z : Z) : float :=
  if z <? 0 then (- of_uint63 (Uint63.of_Z (- z)))%float
  else of_uint63 (Uint63.of_Z z).

(** The integer part of a finite double; [None] for NaN and infinities. *)
Definition trunc (x : float) : option Z :=
  match Prim2SF x with
  | S754_zero _ => Some 0
  | S754_finite s m e =>
    let a := if 0 <=? e then Z.pos m * 2 ^ e else Z.pos m / 2 ^ (- e) in
    Some (if s then - a else a)
  | _ => None
  end.

Fixpoint digits (s : jsstring) (acc : Z) : option Z :=
  match s with
  | [] => Some acc
  | c :: s' =>
    if (48 <=? c) && (c <=? 57) then digits s' (10 * acc + (c - 48))
    else None
  end.

Definition Number (s : jsstring) : float :=
  match digits s 0 with
  | Some n => float_of_Z n
  | None => nan
  end.

(** Days from 1970-01-01 to the first day of month [m] (1 to 12) of year
    [y], in the proleptic Gregorian calendar. *)
Definition days_to_month (y m : Z) : Z :=
  let y' := if m <=? 2 then y - 1 else y in
  let era := y' / 400 in
  let yoe := y' - era * 400 in
  let doy := (153 * (if 2 <? m then m - 3 else m + 9) + 2) / 5 in
  era * 146097 + (yoe * 365 + yoe / 4 - yoe / 100 + doy) - 719468.

(** MakeFullYear, MakeDay, MakeDate and TimeClip, at midnight UTC. *)
Definition Date_getTime (year month day : float) : float :=
  match trunc year, trunc month, trunc day with
  | Some y, Some m, Some d =>
    let y := if (0 <=? y) && (y <=? 99) then 1900 + y else y in
    let ym := y + m / 12 in
    let mn := m mod 12 in
    let t := (days_to_month ym (mn + 1) + d - 1) * 86400000 in
    if Z.abs t <=? 8640000000000000 then float_of_Z t else nan
  | _, _, _ => nan
  end.

#[export] Instance host : Host := mkHost Number Date_getTime.

End UTCHost.

(* ===================================================================== *)
(** ** The badge aggregator *)
(* ===================================================================== *)

Module Badges.

Record Badge : Type := mkBadge { hasNew : bool; hasUpdate : bool }.

(** [Record<string, { hasNew; hasUpdate }>], keyed by category. *)
Abbreviation badges := (gmap CategoryType Badge).

(** [if (!badges[k]) badges[k] = { hasNew: false, hasUpdate: false }] *)
Definition init_entry (k : CategoryType) (m : badges) : badges :=
  match m !! k with
  | Some _ => m
  | None => <[k := mkBadge false false]> m
  end.

(** [badges[k].hasNew = true] *)
Definition set_hasNew (k : CategoryType) (m : badges) : badges :=
  alter (fun r => mkBadge true (hasUpdate r)) k m.

(** [badges[k].hasUpdate = true] *)
Definition set_hasUpdate (k : CategoryType) (m : badges) : badges :=
  alter (fun r => mkBadge (hasNew r) true) k m.

Section WithHost.
Context `{Host}.

(** The body of the [forEach] callback; [now] is the time its call to
    [isRecentUpdate] reads. *)
Definition callback (now : float) (b : Benefit) (m : badges) : badges :=
  let cat := category b in
  let m := init_entry cat m in
  let m := init_entry ALL m in
  let isRecent := Recency.isRecentUpdate now (lastUpdated b) in
  if isRecent then
    match updateType b with
    | Some NEW => set_hasNew ALL (set_hasNew cat m)
    | Some UPDATE => set_hasUpdate ALL (set_hasUpdate cat m)
    | None => m
    end
  else m.

(** [benefits.forEach(callback)] from index [i] on; [clock j] is the time
    that the invocation for the element of index [j] reads. *)
Fixpoint forEach (clock : nat -> float) (i : nat) (benefits : list Benefit)
  (m : badges) : badges :=
  match benefits with
  | [] => m
  | b :: rest => forEach clock (S i) rest (callback (clock i) b m)
  end.

Definition computeCategoryBadges (clock : nat -> float)
  (benefits : list Benefit) : badges :=
  forEach clock 0 benefits ∅.

(** The benefit [b], classified at time [now], sets the flag of kind [u]
    at the key [k]. *)
Definition contributes (now : float) (b : Benefit) (u : UpdateType)
  (k : CategoryType) : Prop :=
  Recency.isRecentUpdate now (lastUpdated b) = true
  /\ updateType b = Some u
  /\ (k = category b \/ k = ALL).

End WithHost.

(** The flags of a key, [false] when the key is absent. *)
Definition newAt (m : badges) (k : CategoryType) : bool :=
  match m !! k with
  | Some r => hasNew r
  | None => false
  end.

Definition updateAt (m : badges) (k : CategoryType) : bool :=
  match m !! k with
  | Some r => hasUpdate r
  | None => false
  end.

Definition flagAt (u : UpdateType) (m : badges) (k : CategoryType)
  : bool :=
  match u with
  | NEW => newAt m k
  | UPDATE => updateAt m k
  end.

(** Every key of [m] is a key of [m'], with each flag that is set in [m]
    still set in [m']. *)
Definition grows (m m' : badges) : Prop :=
  forall k r, m !! k = Some r ->
    exists r', m' !! k = Some r'
               /\ (hasNew r = true -> hasNew r' = true)
               /\ (hasUpdate r = true -> hasUpdate r' = true).

End Badges.

(* ===================================================================== *)
(** ** AllLocalBenefitsPage: filtering and envy sorting *)
(* ===================================================================== *)

Module LocalPage.

(** The [tab] state: ['ALL' | 'ENVY']. *)
Inductive Tab : Type := TAB_ALL | TAB_ENVY.

(** The sentinel of [SIDO_LIST] that selects every province. *)
Definition sido_all : jsstring := Eval vm_compute in utf16 "전체".

(** [s?.includes(q)]: [undefined] when [s] is absent. *)
Definition optional_includes (s : option jsstring) (q : jsstring)
  : option bool :=
  (fun s => includes s q) <$> s.

(** [!x] for [x : boolean | undefined]. *)
Definition not_opt (x : option bool) : bool :=
  match x with
  | Some true => false
  | _ => true
  end.

(** [x || false] for [x : boolean | undefined]. *)
Definition or_false (x : option bool) : bool :=
  match x with
  | Some true => true
  | _ => false
  end.

(** The callback of [benefits.filter]. *)
Definition keep (selectedSido districtInput : jsstring) (b : Benefit)
  : bool :=
  if negb (str_eqb selectedSido sido_all)
     && not_opt (optional_includes (regionTarget b) selectedSido)
  then false
  else if (0 <? length (trim districtInput))%nat then
    let query := trim districtInput in
    let inTitle := includes (title b) query in
    let inDesc := includes (description b) query in
    let inRegion := or_false (optional_includes (regionTarget b) query) in
    if negb inTitle && negb inDesc && negb inRegion then false else true
  else true.

(** [benefits.filter(keep)] *)
Definition filteredBenefits (benefits : list Benefit)
  (selectedSido districtInput : jsstring) : list Benefit :=
  List.filter (keep selectedSido districtInput) benefits.

(** [x || 0] for [x : number | undefined]. *)
Definition or_zero (x : option Z) : Z :=
  match x with
  | Some n => if n =? 0 then 0 else n
  | None => 0
  end.

(** [(a, b) => (b.envyCount || 0) - (a.envyCount || 0)] *)
Definition compareEnvy (a b : Benefit) : Z :=
  or_zero (envyCount b) - or_zero (envyCount a).

(** [Array.prototype.sort] is stable (ECMAScript 2019); the algorithm is
    the engine's choice.  The model inserts each element, from the last to
    the first, before the first element it must not follow. *)
Fixpoint insert {A} (cmp : A -> A -> Z) (x : A) (l : list A) : list A :=
  match l with
  | [] => [x]
  | y :: l' => if cmp x y <=? 0 then x :: l else y :: insert cmp x l'
  end.

Definition sort {A} (cmp : A -> A -> Z) (l : list A) : list A :=
  foldr (insert cmp) [] l.

(** Arrays are objects: the store maps a reference to the elements of
    the array it denotes. *)
Abbreviation store := (gmap positive (list Benefit)).

(** [[...a]]: a new array with the elements of [a]. *)
Definition spread (a : positive) (h : store) : positive * store :=
  let c := fresh (dom h) in
  (c, <[c := h !!! a]> h).

(** [a.sort(cmp)] sorts the array [a] in place and returns [a]. *)
Definition sort_in_place (cmp : Benefit -> Benefit -> Z) (a : positive)
  (h : store) : positive * store :=
  (a, <[a := sort cmp (h !!! a)]> h).

Definition displayBenefits (tab : Tab) (filteredBenefits : positive)
  (h : store) : positive * store :=
  match tab with
  | TAB_ENVY =>
    let '(copy, h1) := spread filteredBenefits h in
    sort_in_place compareEnvy copy h1
  | TAB_ALL => (filteredBenefits, h)
  end.

(** The filter of the region and text stages, declaratively. *)
Definition Passes (selectedSido districtInput : jsstring) (b : Benefit)
  : Prop :=
  (selectedSido <> sido_all ->
   exists r, regionTarget b = Some r /\ Substring selectedSido r)
  /\ (trim districtInput <> [] ->
      Substring (trim districtInput) (title b)
      \/ Substring (trim districtInput) (description b)
      \/ exists r, regionTarget b = Some r
                   /\ Substring (trim districtInput) r).

(** The sort key of envy mode. *)
Definition envy (b : Benefit) : Z := or_zero (envyCount b).

(** Descending by the envy key. *)
Definition desc (x y : Benefit) : Prop := envy y <= envy x.

(** The elements of [l] whose key is [n], in the order of [l]. *)
Definition with_key (n : Z) (l : list Benefit) : list Benefit :=
  List.filter (fun b => envy b =? n) l.

(** A benefit with only the fields the examples look at. *)
Definition benefit (i : string) (region : option jsstring)
  (count : option Z) : Benefit :=
  mkBenefit (utf16 i) [] [] GOV_LOCAL [] GOV region [] None None None None
            count.

(** The benefits 1, 2, 3 with the counts 5, 9, 9. *)
Definition envy_example : list Benefit :=
  [benefit "1" None (Some 5); benefit "2" None (Some 9);
   benefit "3" None (Some 9)].

End LocalPage.

(** A private benefit of category FREE, marked NEW and last updated on
    2026-10-20. *)
Definition free_new_example : Benefit :=
  mkBenefit (utf16 "p1") (utf16 "산모 교실") [] PRIVATE [] FREE None []
            None (Some (utf16 "2026.10.20")) (Some NEW) None None.

(* ===================================================================== *)
(** ** List-level update status and the status dot *)
(* ===================================================================== *)

Module Status.

(** [x === 'NEW'] and [x === 'UPDATE'] for [x : 'NEW' | 'UPDATE' |
    undefined]. *)
Definition updateType_is (u : UpdateType) (x : option UpdateType) : bool :=
  match x, u with
  | Some NEW, NEW => true
  | Some UPDATE, UPDATE => true
  | _, _ => false
  end.

Section WithHost.
Context `{Host}.

(** [benefits.some(b => isRecentUpdate(b.lastUpdated) && b.updateType ===
    u)] from index [i] on: the callback runs until it first returns
    [true]; [clock j] is the time that its invocation for the element of
    index [j] reads. *)
Fixpoint some_recent (clock : nat -> float) (u : UpdateType) (i : nat)
  (benefits : list Benefit) : bool :=
  match benefits with
  | [] => false
  | b :: rest =>
    if Recency.isRecentUpdate (clock i) (lastUpdated b)
       && updateType_is u (updateType b)
    then true
    else some_recent clock u (S i) rest
  end.

(** The two passes read the clock separately. *)
Definition checkUpdateStatus (clockNew clockUpdate : nat -> float)
  (benefits : list Benefit) : Badges.Badge :=
  let hasNew := some_recent clockNew NEW 0 benefits in
  let hasUpdate := some_recent clockUpdate UPDATE 0 benefits in
  Badges.mkBadge hasNew hasUpdate.

End WithHost.

(** The dot that [StatusBadge] renders: [bg-red-500] or [bg-blue-500]. *)
Inductive Dot : Type := RedDot | BlueDot.

(** [StatusBadge]: [None] is the [null] of a component that renders
    nothing. *)
Definition StatusBadge (hasNew hasUpdate : bool) : option Dot :=
  if negb hasNew && negb hasUpdate then None
  else Some (if hasNew then RedDot else BlueDot).

End Status.

(* ===================================================================== *)
(** ** ResultPage: the three display groups *)
(* ===================================================================== *)

Module ResultPage.

(** [a === b] on sources. *)
Definition source_eqb (a b : BenefitSource) : bool :=
  match a, b with
  | GOV_NATIONAL, GOV_NATIONAL => true
  | GOV_LOCAL, GOV_LOCAL => true
  | PRIVATE, PRIVATE => true
  | _, _ => false
  end.

Definition nationalBenefits (benefits : list Benefit) : list Benefit :=
  List.filter (fun b => source_eqb (source b) GOV_NATIONAL) benefits.

Definition localBenefits (benefits : list Benefit) : list Benefit :=
  List.filter (fun b => source_eqb (source b) GOV_LOCAL) benefits.

Definition privateBenefits (benefits : list Benefit) : list Benefit :=
  List.filter (fun b => source_eqb (source b) PRIVATE) benefits.

End ResultPage.

(* ===================================================================== *)
(** ** The latest update date *)
(* ===================================================================== *)

(** [a.localeCompare(b)]: negative, zero or positive; the order is the
    host's collation. *)
Class Collator : Type := mkCollator {
  localeCompare : jsstring -> jsstring -> Z
}.

Module Latest.

(** [x || ''] for [x : string | undefined]. *)
Definition or_empty (x : option jsstring) : jsstring :=
  match x with
  | Some s => s
  | None => []
  end.

Section WithCollator.
Context `{Collator}.

(** [(a, b) => (b.lastUpdated || '').localeCompare(a.lastUpdated || '')] *)
Definition compareLatest (a b : Benefit) : Z :=
  localeCompare (or_empty (lastUpdated b)) (or_empty (lastUpdated a)).

(** The result is [null] ([None]) or the [lastUpdated] field of a benefit,
    which may be [undefined] ([Some None]).  The sort runs on a copy. *)
Definition getLatestUpdateDate (benefits : list Benefit)
  : option (option jsstring) :=
  if (length benefits =? 0)%nat then None
  else
    match LocalPage.sort compareLatest benefits with
    | first :: _ => Some (lastUpdated first)
    | [] => None
    end.

End WithCollator.

(** A collation that orders strings by their code units. *)
Fixpoint compare_units (a b : jsstring) : Z :=
  match a, b with
  | [], [] => 0
  | [], _ :: _ => -1
  | _ :: _, [] => 1
  | x :: a', y :: b' =>
    if x <? y then -1 else if y <? x then 1 else compare_units a' b'
  end.

Definition unit_collator : Collator := mkCollator compare_units.

(** A local benefit with a title and a date. *)
Definition dated (t : string) (d : option jsstring) : Benefit :=
  mkBenefit (utf16 t) (utf16 t) [] GOV_LOCAL [] GOV None [] None d None None
            None.

End Latest.

(* ===================================================================== *)
(** ** HomePage: the search form as a state machine *)
(* ===================================================================== *)

Module HomeForm.

Import Home.

(** [handleInputChange], on the value of the input element. *)
Definition handleInputChange (value : jsstring) : M unit :=
  fun st =>
    let st := mkState value (errorMsg st) (searched st) in
    if negb (length (errorMsg st) =? 0)%nat
    then setErrorMsg [] st
    else (tt, st).

(** What the user does to the form: typing and submitting. *)
Inductive event : Type :=
| Change (value : jsstring)
| Submit.

Definition step (e : event) (st : state) : state :=
  match e with
  | Change v => snd (handleInputChange v st)
  | Submit => snd (handleSubmit st)
  end.

(** The events are run from the first to the last. *)
Definition run (es : list event) (st : state) : state :=
  fold_left (fun st e => step e st) es st.

(** The form when the page mounts, with the user's address in the input
    (or the empty string). *)
Definition initial (address : jsstring) : state := mkState address [] [].

(** What every state of the form satisfies: a displayed message is the
    reason for which the text in the input is rejected, and every search
    issued so far is for a trimmed string that the validator accepts. *)
Definition consistent (st : state) : Prop :=
  (errorMsg st <> [] -> rejects (input st) (errorMsg st))
  /\ Forall (fun r => accepts r /\ trim r = r) (searched st).

End HomeForm.

(* ===================================================================== *)
(** ** SignupPage *)
(* ===================================================================== *)

Module Users.

Record User : Type := mkUser {
  id : jsstring;
  nickname : jsstring;
  email : option jsstring;
  dueDate : option jsstring;
  address : option jsstring;
  privacyAgreed : bool
}.

(** What the social login hands over. *)
Record BaseInfo : Type := mkBaseInfo {
  base_id : jsstring;
  base_nickname : option jsstring;
  base_email : option jsstring
}.

End Users.

Module Signup.

Inductive field : Type := MonthField | DayField.

(** What the handlers do besides setting state. *)
Inductive effect : Type :=
| Alert (message : jsstring)
| Focus (f : field).

Record state : Type := mkState {
  nickname : jsstring;
  address : jsstring;
  year : jsstring;
  month : jsstring;
  day : jsstring;
  isNotPregnant : bool;
  privacyAgreed : bool;
  submitting : bool;
  nicknameError : jsstring;
  effects : list effect
}.

Definition setYear (v : jsstring) (st : state) : state :=
  mkState (nickname st) (address st) v (month st) (day st)
          (isNotPregnant st) (privacyAgreed st) (submitting st)
          (nicknameError st) (effects st).
Definition setMonth (v : jsstring) (st : state) : state :=
  mkState (nickname st) (address st) (year st) v (day st)
          (isNotPregnant st) (privacyAgreed st) (submitting st)
          (nicknameError st) (effects st).
Definition setDay (v : jsstring) (st : state) : state :=
  mkState (nickname st) (address st) (year st) (month st) v
          (isNotPregnant st) (privacyAgreed st) (submitting st)
          (nicknameError st) (effects st).
Definition setIsNotPregnant (v : bool) (st : state) : state :=
  mkState (nickname st) (address st) (year st) (month st) (day st)
          v (privacyAgreed st) (submitting st)
          (nicknameError st) (effects st).
Definition setNickname (v : jsstring) (st : state) : state :=
  mkState v (address st) (year st) (month st) (day st)
          (isNotPregnant st) (privacyAgreed st) (submitting st)
          (nicknameError st) (effects st).
Definition setAddress (v : jsstring) (st : state) : state :=
  mkState (nickname st) v (year st) (month st) (day st)
          (isNotPregnant st) (privacyAgreed st) (submitting st)
          (nicknameError st) (effects st).
Definition setPrivacyAgreed (v : bool) (st : state) : state :=
  mkState (nickname st) (address st) (year st) (month st) (day st)
          (isNotPregnant st) v (submitting st)
          (nicknameError st) (effects st).
Definition setSubmitting (v : bool) (st : state) : state :=
  mkState (nickname st) (address st) (year st) (month st) (day st)
          (isNotPregnant st) (privacyAgreed st) v
          (nicknameError st) (effects st).
Definition setNicknameError (v : jsstring) (st : state) : state :=
  mkState (nickname st) (address st) (year st) (month st) (day st)
          (isNotPregnant st) (privacyAgreed st) (submitting st)
          v (effects st).
Definition emit (e : effect) (st : state) : state :=
  mkState (nickname st) (address st) (year st) (month st) (day st)
          (isNotPregnant st) (privacyAgreed st) (submitting st)
          (nicknameError st) (effects st ++ [e]).

(** [s.slice(0, n)] *)
Definition slice0 (n : nat) (s : jsstring) : jsstring := firstn n s.

(** [s.padStart(n, c)] for a pad string [c] of one code unit. *)
Definition padStart (n : nat) (c : Z) (s : jsstring) : jsstring :=
  repeat c (n - length s) ++ s.

Definition handleYearChange (value : jsstring) (st : state) : state :=
  let val := slice0 4 value in
  let st := setYear val st in
  if (length val =? 4)%nat then emit (Focus MonthField) st else st.

Definition handleMonthChange (value : jsstring) (st : state) : state :=
  let val := slice0 2 value in
  let st := setMonth val st in
  if (length val =? 2)%nat then emit (Focus DayField) st else st.

Definition handleDayChange (value : jsstring) (st : state) : state :=
  let val := slice0 2 value in
  setDay val st.

Definition handleNotPregnantChange (checked : bool) (st : state) : state :=
  let st := setIsNotPregnant checked st in
  if checked then setDay [] (setMonth [] (setYear [] st)) else st.

(** The inline [onChange] of the nickname input. *)
Definition handleNicknameChange (value : jsstring) (st : state) : state :=
  setNicknameError [] (setNickname value st).

(** [s] as a condition: a string is truthy when it is not empty. *)
Definition truthy (s : jsstring) : bool := negb (length s =? 0)%nat.

(** The [formattedDate] of [handleSubmit]. *)
Definition formattedDate (st : state) : option jsstring :=
  if negb (isNotPregnant st) && truthy (year st) && truthy (month st)
     && truthy (day st)
  then Some (year st ++ utf16 "-" ++ padStart 2 (code "0") (month st)
             ++ utf16 "-" ++ padStart 2 (code "0") (day st))
  else None.

Definition msg_nickname_required : jsstring :=
  Eval vm_compute in utf16 "닉네임을 입력해주세요.".
Definition msg_privacy : jsstring :=
  Eval vm_compute in utf16 "개인정보 수집 및 이용에 동의해주세요.".
Definition msg_nickname_taken : jsstring :=
  Eval vm_compute in utf16 "이미 사용 중인 닉네임입니다.".
Definition msg_failed : jsstring :=
  Eval vm_compute in utf16 "오류가 발생했습니다. 다시 시도해주세요.".

(** How [await checkNicknameAvailability(nickname)] ends: the promise
    resolves to [true], resolves to [false], or rejects. *)
Inductive availability : Type := Available | Taken | Failed.

(** [address || undefined] *)
Definition or_undefined (s : jsstring) : option jsstring :=
  if truthy s then Some s else None.

(** [handleSubmit]: the state it leaves, and the user that the timer
    callback it schedules will save and hand to [onComplete], if it
    schedules one.  The service is asked only if the two checks pass. *)
Definition handleSubmit (baseInfo : Users.BaseInfo) (answer : availability)
  (st : state) : state * option Users.User :=
  let st0 := st in
  let st := setNicknameError [] st in
  if negb (truthy (trim (nickname st0))) then
    (setNicknameError msg_nickname_required st, None)
  else if negb (privacyAgreed st0) then
    (emit (Alert msg_privacy) st, None)
  else
    let st := setSubmitting true st in
    match answer with
    | Failed => (setSubmitting false (emit (Alert msg_failed) st), None)
    | Taken =>
      (setSubmitting false (setNicknameError msg_nickname_taken st), None)
    | Available =>
      let newUser :=
        Users.mkUser (Users.base_id baseInfo) (trim (nickname st0))
                     (Users.base_email baseInfo) (formattedDate st0)
                     (or_undefined (address st0)) true in
      (st, Some newUser)
    end.

(** What the user does to the form before submitting it. *)
Inductive event : Type :=
| NicknameChange (value : jsstring)
| AddressChange (value : jsstring)
| YearChange (value : jsstring)
| MonthChange (value : jsstring)
| DayChange (value : jsstring)
| NotPregnantChange (checked : bool)
| PrivacyChange (checked : bool).

Definition step (e : event) (st : state) : state :=
  match e with
  | NicknameChange v => handleNicknameChange v st
  | AddressChange v => setAddress v st
  | YearChange v => handleYearChange v st
  | MonthChange v => handleMonthChange v st
  | DayChange v => handleDayChange v st
  | NotPregnantChange c => handleNotPregnantChange c st
  | PrivacyChange c => setPrivacyAgreed c st
  end.

Definition run (es : list event) (st : state) : state :=
  fold_left (fun st e => step e st) es st.

(** The form when the page mounts: the nickname is
    [baseInfo.nickname || '']. *)
Definition initial (baseInfo : Users.BaseInfo) : state :=
  mkState (Latest.or_empty (Users.base_nickname baseInfo)) [] [] [] []
          false false false [] [].

End Signup.

(* ===================================================================== *)
(** ** App: navigation *)
(* ===================================================================== *)

Module App.

Inductive Page : Type :=
| HOME | LOGIN | SIGNUP | RESULT | MY_INFO | ALL_LOCAL.

Record state : Type := mkState {
  page : Page;
  user : option Users.User;
  region : jsstring;
  loginBaseInfo : option Users.BaseInfo
}.

Definition setPage (p : Page) (st : state) : state :=
  mkState p (user st) (region st) (loginBaseInfo st).
Definition setUser (u : option Users.User) (st : state) : state :=
  mkState (page st) u (region st) (loginBaseInfo st).
Definition setRegion (r : jsstring) (st : state) : state :=
  mkState (page st) (user st) r (loginBaseInfo st).
Definition setLoginBaseInfo (b : option Users.BaseInfo) (st : state)
  : state :=
  mkState (page st) (user st) (region st) b.

Definition handleSearch (searchRegion : jsstring) (st : state) : state :=
  setPage RESULT (setRegion searchRegion st).

Definition handleLoginClick (st : state) : state := setPage LOGIN st.

Definition handleLoginSuccess (baseInfo : Users.BaseInfo) (st : state)
  : state :=
  setPage SIGNUP (setLoginBaseInfo (Some baseInfo) st).

Definition handleSignupComplete (newUser : Users.User) (st : state)
  : state :=
  let st := setUser (Some newUser) st in
  match Users.address newUser with
  | Some a =>
    if Signup.truthy a then setPage RESULT (setRegion a st)
    else setPage HOME st
  | None => setPage HOME st
  end.

(** [logoutUser()] clears the stored user, which is not part of this
    state. *)
Definition handleLogout (st : state) : state :=
  setPage HOME (setUser None st).

Definition handleUpdateUser (updatedUser : Users.User) (st : state)
  : state :=
  setUser (Some updatedUser) st.

(** [() => user ? setPage('MY_INFO') : setPage('LOGIN')] *)
Definition goMyPage (st : state) : state :=
  match user st with
  | Some _ => setPage MY_INFO st
  | None => setPage LOGIN st
  end.

(** The events that reach the handlers of [App]. *)
Inductive event : Type :=
| Loaded (stored : option Users.User)
| Search (searchRegion : jsstring)
| LoginClick
| Logout
| MyInfoClick
| LoginSuccess (baseInfo : Users.BaseInfo)
| LoginCancel
| SignupComplete (newUser : Users.User)
| SignupCancel
| ResultBack
| ViewAllLocal
| ResultGoHome
| ResultGoMyPage
| MyInfoSaved (updatedUser : Users.User)
| MyInfoBack
| AllLocalBack
| AllLocalGoHome
| AllLocalGoMyPage.

Definition handle (e : event) (st : state) : state :=
  match e with
  | Loaded (Some u) => setUser (Some u) st
  | Loaded None => st
  | Search r => handleSearch r st
  | LoginClick => handleLoginClick st
  | Logout => handleLogout st
  | MyInfoClick => setPage MY_INFO st
  | LoginSuccess b => handleLoginSuccess b st
  | LoginCancel => setPage HOME st
  | SignupComplete u => handleSignupComplete u st
  | SignupCancel => setPage HOME st
  | ResultBack => setPage HOME st
  | ViewAllLocal => setPage ALL_LOCAL st
  | ResultGoHome => setPage HOME st
  | ResultGoMyPage => goMyPage st
  | MyInfoSaved u => setPage HOME (handleUpdateUser u st)
  | MyInfoBack => setPage HOME st
  | AllLocalBack => setPage RESULT st
  | AllLocalGoHome => setPage HOME st
  | AllLocalGoMyPage => goMyPage st
  end.

(** When an event can happen.  A click needs its button on the screen:
    the page that is rendered and, on the home page, the branch of
    [user ? ... : ...] that holds the button.  A search is what
    [HomePage]'s [handleSubmit] passes to [onSearch].  The callbacks of
    promises and timers ([Loaded], [LoginSuccess], [SignupComplete],
    [MyInfoSaved]) may run whatever the page has become meanwhile. *)
Definition enabled (st : state) (e : event) : Prop :=
  match e with
  | Loaded _ | LoginSuccess _ | SignupComplete _ | MyInfoSaved _ => True
  | Search r =>
    page st = HOME /\ exists text, Home.accepts text /\ r = trim text
  | LoginClick => page st = HOME /\ user st = None
  | Logout | MyInfoClick => page st = HOME /\ user st <> None
  | LoginCancel => page st = LOGIN
  | SignupCancel => page st = SIGNUP /\ loginBaseInfo st <> None
  | ResultBack | ViewAllLocal | ResultGoHome | ResultGoMyPage =>
    page st = RESULT
  | MyInfoBack => page st = MY_INFO /\ user st <> None
  | AllLocalBack | AllLocalGoHome | AllLocalGoMyPage => page st = ALL_LOCAL
  end.

Definition initial : state := mkState HOME None [] None.

Inductive reachable : state -> Prop :=
| reach_initial : reachable initial
| reach_step st e :
    reachable st -> enabled st e -> reachable (handle e st).

End App.

(* ===================================================================== *)
(** ** Facts about strings *)
(* ===================================================================== *)

Section StringFacts.

Example utf16_hangul : utf16 "시도군구 가힣" = [49884; 46020; 44400; 44396; 32; 44032; 55203].
Proof. reflexivity. Qed.

Example split_ws_ex :
  split_ws (utf16 "경기도  성남시 ") = [utf16 "경기도"; utf16 "성남시"; []].
Proof. reflexivity. Qed.

Lemma startsWith_spec (s p : jsstring) :
  startsWith s p = true <-> exists post, s = p ++ post.
Proof.
  revert s; induction p as [|c p IH]; intros s; simpl.
  - split; [intros _; exists s; reflexivity | destruct s; reflexivity].
  - destruct s as [|d s]; simpl.
    + split; [discriminate | intros [post H]; discriminate].
    + rewrite andb_true_iff, Z.eqb_eq, IH. split.
      * intros [-> [post ->]]. exists post; reflexivity.
      * intros [post H]. injection H as -> ->. split; [reflexivity | eauto].
Qed.

Lemma includes_spec (s sub : jsstring) :
  includes s sub = true <-> Substring sub s.
Proof.
  unfold Substring. induction s as [|d s IH].
  - cbn [includes]. rewrite orb_false_r, startsWith_spec. split.
    + intros [post H]. exists [], post. exact H.
    + intros [pre [post H]]. destruct pre; simpl in H; [eauto | discriminate].
  - cbn [includes]. rewrite orb_true_iff, startsWith_spec, IH. split.
    + intros [[post H] | [pre [post H]]].
      * exists [], post. exact H.
      * exists (d :: pre), post. simpl. congruence.
    + intros [pre [post H]]. destruct pre as [|e pre]; simpl in H.
      * left; eauto.
      * right. injection H as _ H. eauto.
Qed.

Lemma includes_unit (s : jsstring) (c : Z) :
  includes s [c] = true <-> In c s.
Proof.
  rewrite includes_spec. unfold Substring. split.
  - intros [pre [post ->]]. apply in_or_app. right. left. reflexivity.
  - intros H. apply in_split in H as [pre [post ->]]. exists pre, post.
    reflexivity.
Qed.

Lemma endsWith_spec (s p : jsstring) :
  endsWith s p = true <-> Suffix p s.
Proof.
  unfold endsWith, Suffix. rewrite startsWith_spec. split.
  - intros [post H]. exists (rev post).
    rewrite <- (rev_involutive s), H, rev_app_distr, rev_involutive.
    reflexivity.
  - intros [pre ->]. exists (rev pre). apply rev_app_distr.
Qed.

Lemma dropWhile_app_keep (p : Z -> bool) (l : jsstring) (c : Z) :
  p c = false -> dropWhile p (l ++ [c]) = dropWhile p l ++ [c].
Proof.
  intros Hc. induction l as [|d l IH]; simpl.
  - rewrite Hc. reflexivity.
  - destruct (p d); [exact IH | reflexivity].
Qed.

Lemma dropWhile_head (p : Z -> bool) (s : jsstring) c s' :
  dropWhile p s = c :: s' -> p c = false.
Proof.
  induction s as [|d s IH]; simpl; [discriminate |].
  destruct (p d) eqn:E; [exact IH |]. intros H; injection H as -> _.
  exact E.
Qed.

Lemma dropWhile_none (p : Z -> bool) (s : jsstring) :
  Forall (fun c => p c = false) s -> s <> [] ->
  dropWhile p s = s /\ dropWhile p (rev s) = rev s.
Proof.
  intros H Hne. split.
  - destruct H as [|c s Hc _]; [congruence |]. simpl. rewrite Hc. reflexivity.
  - induction H as [|c s Hc Hs IH]; [congruence |]. simpl.
    rewrite dropWhile_app_keep by exact Hc.
    destruct s as [|d s]; [reflexivity |].
    rewrite IH by discriminate. reflexivity.
Qed.

Lemma dropWhile_decomp (p : Z -> bool) (s : jsstring) :
  exists pre, s = pre ++ dropWhile p s /\ Forall (fun c => p c = true) pre.
Proof.
  induction s as [|c s (pre & E & F)]; simpl.
  - exists []. split; [reflexivity | constructor].
  - destruct (p c) eqn:Ec.
    + exists (c :: pre). split; [simpl; congruence | constructor; assumption].
    + exists []. split; [reflexivity | constructor].
Qed.

(** [trim] removes a run of white space at each end, and what is left
    neither starts nor ends with white space. *)
Lemma trim_spec (text : jsstring) :
  exists pre post,
    text = pre ++ trim text ++ post
    /\ Forall (fun c => isWhiteSpace c = true) pre
    /\ Forall (fun c => isWhiteSpace c = true) post
    /\ (forall c s, trim text = c :: s -> isWhiteSpace c = false)
    /\ (forall c s, trim text = s ++ [c] -> isWhiteSpace c = false).
Proof.
  unfold trim, trimStart, trimEnd.
  destruct (dropWhile_decomp isWhiteSpace text) as (pre & E1 & F1).
  set (u := dropWhile isWhiteSpace text) in *.
  destruct (dropWhile_decomp isWhiteSpace (rev u)) as (post & E2 & F2).
  set (v := dropWhile isWhiteSpace (rev u)) in *.
  assert (Eu : u = rev v ++ rev post).
  { rewrite <- rev_app_distr, <- E2, rev_involutive. reflexivity. }
  exists pre, (rev post). split; [congruence |]. split; [exact F1 |].
  split; [apply Forall_rev; exact F2 |]. split.
  - intros c s Ev. apply (dropWhile_head isWhiteSpace text c (s ++ rev post)).
    fold u. rewrite Eu, Ev. reflexivity.
  - intros c s Ev. apply (dropWhile_head isWhiteSpace (rev u) c (rev s)).
    fold v. rewrite <- (rev_involutive v), Ev, rev_app_distr. reflexivity.
Qed.

(** Trimming a non-empty text without white space changes nothing. *)
Lemma trim_no_whitespace (s : jsstring) :
  s <> [] -> Forall (fun c => isWhiteSpace c = false) s -> trim s = s.
Proof.
  intros Hne H. unfold trim, trimStart, trimEnd.
  destruct (dropWhile_none isWhiteSpace s H Hne) as [-> ->].
  apply rev_involutive.
Qed.

Lemma split_ws_go_length (s tok : jsstring) (b : bool) :
  (1 <= length (split_ws_go s tok b))%nat.
Proof.
  revert tok b; induction s as [|c s IH]; intros tok b; simpl; [lia |].
  destruct (isWhiteSpace c); [destruct b |]; simpl; auto with lia.
Qed.

(** A text that contains white space splits into at least two pieces,
    wherever the white space stands. *)
Lemma split_ws_two (s : jsstring) :
  Exists (fun c => isWhiteSpace c = true) s ->
  (2 <= length (split_ws s))%nat.
Proof.
  unfold split_ws. generalize (@nil Z) as tok.
  induction s as [|c s IH]; intros tok H; [inversion H |].
  simpl. destruct (isWhiteSpace c) eqn:E.
  - simpl. pose proof (split_ws_go_length s [] true). lia.
  - apply IH. inversion H; subst; [congruence | assumption].
Qed.

(** The pieces hold the code units of the text that are not white space,
    in order, and nothing else. *)
Lemma split_ws_go_pieces (s tok : jsstring) (b : bool) :
  Forall (fun c => isWhiteSpace c = false) tok ->
  (b = true -> tok = []) ->
  Forall (Forall (fun c => isWhiteSpace c = false)) (split_ws_go s tok b)
  /\ concat (split_ws_go s tok b)
     = rev tok ++ List.filter (fun c => negb (isWhiteSpace c)) s.
Proof.
  revert tok b; induction s as [|c s IH]; intros tok b Htok Hb; simpl.
  - split; [|rewrite !app_nil_r; reflexivity].
    constructor; [|constructor]. apply Forall_rev. exact Htok.
  - destruct (isWhiteSpace c) eqn:E; simpl.
    + destruct (IH [] true (List.Forall_nil _) (fun _ => eq_refl))
        as [I1 I2].
      simpl in I2. destruct b; simpl.
      * rewrite (Hb eq_refl). split; [exact I1 | exact I2].
      * split; [constructor; [apply Forall_rev; exact Htok | exact I1] |].
        rewrite I2. reflexivity.
    + destruct (IH (c :: tok) false) as [I1 I2];
        [constructor; assumption | discriminate |].
      split; [exact I1 |]. rewrite I2. simpl. rewrite <- app_assoc.
      reflexivity.
Qed.

Lemma split_ws_pieces (s : jsstring) :
  Forall (Forall (fun c => isWhiteSpace c = false)) (split_ws s)
  /\ concat (split_ws s)
     = List.filter (fun c => negb (isWhiteSpace c)) s.
Proof.
  apply (split_ws_go_pieces s [] false); [constructor | discriminate].
Qed.

End StringFacts.

(* ===================================================================== *)
(** ** Facts about regular expressions *)
(* ===================================================================== *)

Section RegExpFacts.

Import RegExp.

Lemma nullable_Lang (r : regex) : nullable r = true <-> Lang r [].
Proof.
  split.
  - induction r; simpl; intros H; try discriminate.
    + constructor.
    + apply andb_true_iff in H as [H1 H2].
      apply (LCat _ _ [] []); auto.
    + apply orb_true_iff in H as [H|H]; [apply LAltL | apply LAltR]; auto.
    + constructor.
  - intros H. remember [] as s eqn:Es.
    induction H; simpl; try reflexivity; try discriminate.
    + apply app_eq_nil in Es as [-> ->].
      rewrite IHLang1, IHLang2; reflexivity.
    + rewrite IHLang by assumption. reflexivity.
    + rewrite IHLang by assumption. apply orb_true_r.
Qed.

Lemma deriv_sound (c : Z) (r : regex) (s : jsstring) :
  Lang (deriv c r) s -> Lang r (c :: s).
Proof.
  revert s; induction r; intros s H; simpl in H.
  - inversion H.
  - inversion H.
  - destruct ((lo <=? c) && (c <=? hi)) eqn:E; inversion H; subst.
    apply andb_true_iff in E as [E1 E2]. constructor. lia.
  - assert (Hcat : forall w, Lang (Cat (deriv c r1) r2) w ->
                             Lang (Cat r1 r2) (c :: w)).
    { intros w Hw. inversion Hw; subst.
      apply (LCat r1 r2 (c :: s1) s2); auto. }
    destruct (nullable r1) eqn:E; [|auto].
    inversion H; subst; [auto |].
    apply (LCat r1 r2 [] (c :: s)); [apply nullable_Lang; exact E | auto].
  - inversion H; subst; [apply LAltL | apply LAltR]; auto.
  - inversion H; subst. apply (LStarS r (c :: s1) s2); auto.
Qed.

Lemma deriv_complete (c : Z) (r : regex) (s : jsstring) :
  Lang r (c :: s) -> Lang (deriv c r) s.
Proof.
  intros H. remember (c :: s) as w eqn:Ew. revert s Ew.
  induction H as [ | lo hi d Hd | r1 r2 s1 s2 H1 IH1 H2 IH2
                 | r1 r2 u H1 IH1 | r1 r2 u H2 IH2
                 | r | r s1 s2 H1 IH1 H2 IH2 ];
    intros t Ew; simpl; try discriminate.
  - injection Ew as -> <-.
    replace ((lo <=? c) && (c <=? hi)) with true; [constructor |].
    symmetry. apply andb_true_iff. split; lia.
  - destruct s1 as [|d s1]; simpl in Ew.
    + subst s2. apply nullable_Lang in H1. rewrite H1.
      apply LAltR. auto.
    + injection Ew as -> <-.
      assert (Lang (Cat (deriv c r1) r2) (s1 ++ s2))
        by (constructor; auto).
      destruct (nullable r1); [apply LAltL |]; assumption.
  - apply LAltL; auto.
  - apply LAltR; auto.
  - destruct s1 as [|d s1]; simpl in Ew.
    + subst s2. apply (IH2 t). reflexivity.
    + injection Ew as -> <-. constructor; auto.
Qed.

(** The derivative matcher decides membership in the language. *)
Lemma matches_Lang (r : regex) (s : jsstring) :
  matches r s = true <-> Lang r s.
Proof.
  revert r; induction s as [|c s IH]; intros r; simpl.
  - apply nullable_Lang.
  - rewrite IH. split; [apply deriv_sound | apply deriv_complete].
Qed.

Lemma suffixes_spec (s suf : jsstring) :
  In suf (suffixes s) <-> Suffix suf s.
Proof.
  unfold Suffix. induction s as [|c s IH].
  - simpl. split.
    + intros [<- | []]. exists []. reflexivity.
    + intros [pre H]. symmetry in H.
      apply app_eq_nil in H as [_ ->]. left; reflexivity.
  - cbn [suffixes In]. rewrite IH. split.
    + intros [<- | [pre ->]]; [exists [] | exists (c :: pre)]; reflexivity.
    + intros [pre H]. destruct pre as [|d pre]; simpl in H.
      * left. exact H.
      * right. injection H as _ ->. eauto.
Qed.

Lemma test_dollar_spec (r : regex) (s : jsstring) :
  test_dollar r s = true <-> exists pre suf, s = pre ++ suf /\ Lang r suf.
Proof.
  unfold test_dollar. rewrite existsb_exists. split.
  - intros [suf [Hin Hm]]. apply suffixes_spec in Hin as [pre ->].
    exists pre, suf. split; [reflexivity | apply matches_Lang; exact Hm].
  - intros [pre [suf [-> HL]]]. exists suf. split.
    + apply suffixes_spec. exists pre. reflexivity.
    + apply matches_Lang. exact HL.
Qed.

Lemma Lang_Chr (k : Z) (s : jsstring) : Lang (Chr k) s <-> s = [k].
Proof.
  unfold Chr. split.
  - intros H. inversion H; subst. f_equal. lia.
  - intros ->. constructor. lia.
Qed.

Lemma Lang_Star_Range (lo hi : Z) (s : jsstring) :
  Lang (Star (Range lo hi)) s <-> Forall (fun c => lo <= c <= hi) s.
Proof.
  split.
  - intros H. remember (Star (Range lo hi)) as r eqn:Er.
    induction H; try discriminate; [constructor |].
    injection Er as ->. inversion H; subst. simpl.
    constructor; [assumption | apply IHLang2; reflexivity].
  - induction 1 as [|c s Hc Hs IH]; [constructor |].
    apply (LStarS _ [c] s); [constructor; exact Hc | exact IH].
Qed.

Lemma Lang_Plus_Range (lo hi : Z) (s : jsstring) :
  Lang (Plus (Range lo hi)) s
  <-> s <> [] /\ Forall (fun c => lo <= c <= hi) s.
Proof.
  unfold Plus. split.
  - intros H. inversion H as [| |? ? s1 s2 H1 H2| | | |]; subst.
    inversion H1; subst. apply Lang_Star_Range in H2. simpl.
    split; [discriminate | constructor; assumption].
  - intros [Hne HF]. destruct HF as [|c s Hc Hs]; [congruence |].
    apply (LCat _ _ [c] s); [constructor; exact Hc |].
    apply Lang_Star_Range. exact Hs.
Qed.

Lemma Lang_Cat (r1 r2 : regex) (s : jsstring) :
  Lang (Cat r1 r2) s
  <-> exists s1 s2, s = s1 ++ s2 /\ Lang r1 s1 /\ Lang r2 s2.
Proof.
  split.
  - intros H. inversion H; subst. eauto.
  - intros [s1 [s2 [-> [H1 H2]]]]. constructor; assumption.
Qed.

Lemma Lang_Alt (r1 r2 : regex) (s : jsstring) :
  Lang (Alt r1 r2) s <-> Lang r1 s \/ Lang r2 s.
Proof.
  split.
  - intros H. inversion H; subst; auto.
  - intros [H|H]; [apply LAltL | apply LAltR]; exact H.
Qed.

End RegExpFacts.

(* ===================================================================== *)
(** ** The address validator *)
(* ===================================================================== *)

Section ValidatorFacts.

Import Home.

(** The words of [typoRegex]. *)
Lemma typoRegex_Lang (s : jsstring) :
  RegExp.Lang typoRegex s <->
  exists a x b y,
    s = a ++ [x] ++ b ++ [y]
    /\ a <> [] /\ Forall Hangul a
    /\ (x = code "시" \/ x = code "도")
    /\ b <> [] /\ Forall Hangul b
    /\ (y = code "시" \/ y = code "군" \/ y = code "구").
Proof.
  unfold typoRegex, hangul. split.
  - intros H.
    apply Lang_Cat in H as (a & s1 & -> & Ha & H).
    apply Lang_Cat in H as (sx & s2 & -> & Hx & H).
    apply Lang_Cat in H as (b & sy & -> & Hb & Hy).
    apply Lang_Plus_Range in Ha as [Ha1 Ha2].
    apply Lang_Plus_Range in Hb as [Hb1 Hb2].
    apply Lang_Alt in Hx. rewrite !Lang_Chr in Hx.
    apply Lang_Alt in Hy. rewrite Lang_Alt, !Lang_Chr in Hy.
    assert (Ex : exists x, sx = [x] /\ (x = code "시" \/ x = code "도"))
      by (destruct Hx as [->| ->]; eauto).
    assert (Ey : exists y, sy = [y]
                 /\ (y = code "시" \/ y = code "군" \/ y = code "구"))
      by (destruct Hy as [->|[->| ->]]; eauto).
    destruct Ex as (x & -> & Hx'), Ey as (y & -> & Hy').
    exists a, x, b, y. repeat split; assumption.
  - intros (a & x & b & y & -> & Ha1 & Ha2 & Hx & Hb1 & Hb2 & Hy).
    apply Lang_Cat. exists a, ([x] ++ b ++ [y]). split; [reflexivity |].
    split; [apply Lang_Plus_Range; split; assumption |].
    apply Lang_Cat. exists [x], (b ++ [y]). split; [reflexivity |].
    split; [apply Lang_Alt; rewrite !Lang_Chr;
            destruct Hx as [->| ->]; auto |].
    apply Lang_Cat. exists b, [y]. split; [reflexivity |].
    split; [apply Lang_Plus_Range; split; assumption |].
    rewrite Lang_Alt, Lang_Alt, !Lang_Chr.
    destruct Hy as [->|[->| ->]]; auto.
Qed.

(** [typoRegex.test(tok)] decides the concatenation typo. *)
Lemma typoRegex_test (tok : jsstring) :
  RegExp.test_dollar typoRegex tok = true <-> ConcatTypo tok.
Proof.
  rewrite test_dollar_spec. unfold ConcatTypo. split.
  - intros (pre & suf & -> & H). apply typoRegex_Lang in H.
    destruct H as (a & x & b & y & -> & H). exists pre, a, x, b, y.
    split; [reflexivity | exact H].
  - intros (pre & a & x & b & y & -> & H).
    exists pre, (a ++ [x] ++ b ++ [y]). split; [reflexivity |].
    apply typoRegex_Lang. exists a, x, b, y. split; [reflexivity | exact H].
Qed.

Lemma typo_loop_spec (parts : list jsstring) :
  typo_loop parts = true <-> Exists ConcatTypo parts.
Proof.
  induction parts as [|p parts IH]; simpl.
  - split; [discriminate | intros H; inversion H].
  - rewrite Exists_cons, <- IH, <- typoRegex_test.
    destruct (RegExp.test_dollar typoRegex p); intuition congruence.
Qed.

Lemma two_tokens_si_spec (parts : list jsstring) :
  (length parts =? 2)%nat && second_endsWith_si parts = true
  <-> exists a b, parts = [a; b] /\ Suffix (utf16 "시") b.
Proof.
  rewrite andb_true_iff, Nat.eqb_eq. unfold second_endsWith_si. split.
  - intros [Hlen H].
    destruct parts as [|a [|b [|c parts]]]; try discriminate.
    simpl in H. apply endsWith_spec in H. eauto.
  - intros (a & b & -> & H). split; [reflexivity |].
    simpl. apply endsWith_spec. exact H.
Qed.

Lemma includes_space (t : jsstring) :
  includes t (utf16 " ") = true <-> In (code " ") t.
Proof. apply includes_unit. Qed.

Lemma length_zero_spec (t : jsstring) :
  (length t =? 0)%nat = true <-> t = [].
Proof. rewrite Nat.eqb_eq. destruct t; simpl; split; congruence. Qed.

(** The decision list of [validateSearchInput]: exactly one of six cases
    applies, each with its outcome. *)
Lemma validate_cases (text : jsstring) :
  let t := trim text in
  let toks := tokens text in
  let two_si := exists a b, toks = [a; b] /\ Suffix (utf16 "시") b in
  (t = [] /\ rejects text msg_required)
  \/ (t <> [] /\ ~ In (code " ") t /\ rejects text msg_spacing)
  \/ (t <> [] /\ In (code " ") t /\ Exists ConcatTypo toks
      /\ rejects text msg_spacing)
  \/ (t <> [] /\ In (code " ") t /\ ~ Exists ConcatTypo toks
      /\ (length toks < 2)%nat /\ rejects text msg_both_levels)
  \/ (t <> [] /\ In (code " ") t /\ ~ Exists ConcatTypo toks
      /\ ~ (length toks < 2)%nat /\ two_si /\ rejects text msg_district)
  \/ (t <> [] /\ In (code " ") t /\ ~ Exists ConcatTypo toks
      /\ ~ (length toks < 2)%nat /\ ~ two_si /\ accepts text).
Proof.
  intros t toks two_si.
  pose proof (length_zero_spec t) as H1.
  pose proof (includes_space t) as H2.
  pose proof (typo_loop_spec toks) as H3.
  pose proof (Nat.ltb_lt (length toks) 2) as H4.
  pose proof (two_tokens_si_spec toks) as H5.
  unfold rejects, accepts, validateSearchInput.
  fold t. change (split_ws t) with toks.
  destruct (length t =? 0)%nat.
  { left. split; [apply H1; reflexivity | reflexivity]. }
  assert (t <> []) by (intros E; apply H1 in E; discriminate).
  right. destruct (includes t (utf16 " ")); cbn [negb].
  2: { assert (~ In (code " ") t)
         by (intros E; apply H2 in E; discriminate).
       left. case_done. }
  assert (In (code " ") t) by (apply H2; reflexivity).
  right. destruct (typo_loop toks).
  { assert (Exists ConcatTypo toks) by (apply H3; reflexivity).
    left. case_done. }
  assert (~ Exists ConcatTypo toks)
    by (intros E; apply H3 in E; discriminate).
  right. destruct (length toks <? 2)%nat.
  { assert (length toks < 2)%nat by (apply H4; reflexivity).
    left. case_done. }
  assert (~ (length toks < 2)%nat)
    by (intros E; apply H4 in E; discriminate).
  right.
  destruct ((length toks =? 2)%nat && second_endsWith_si toks).
  { assert two_si by (apply H5; reflexivity). left. case_done. }
  assert (~ two_si) by (intros E; apply H5 in E; discriminate).
  right. case_done.
Qed.

Lemma rejects_no_search (text reason : jsstring) :
  rejects text reason -> no_search text.
Proof.
  intros H st <-. unfold handleSubmit, mbind, M_bind, get_input.
  rewrite H. reflexivity.
Qed.

Lemma accepts_search_issued (text : jsstring) :
  accepts text -> search_issued text.
Proof.
  intros H st <-. unfold handleSubmit, mbind, M_bind, get_input.
  rewrite H. reflexivity.
Qed.

End ValidatorFacts.

Section ValidatorTheorems.

Import Home.

Lemma tokens_of_empty (text : jsstring) :
  trim text = [] -> tokens text = [[]].
Proof. unfold tokens. intros ->. reflexivity. Qed.

Lemma space_is_whitespace (t : jsstring) :
  In (code " ") t -> HasWhiteSpace t.
Proof.
  intros H. apply List.Exists_exists. exists (code " "). split; [exact H |].
  reflexivity.
Qed.

(** C1 (as amended).  [validateSearchInput] applies its rules in order,
    first failure winning: empty after trimming, "address required"; no
    space character U+0020 in the trimmed text, the spacing reason; a token
    ending in the concatenation pattern, the spacing reason; fewer than two
    tokens, the both-levels reason; exactly two tokens, the second ending in
    시, the district-detail reason; otherwise the input is accepted.  A
    submit issues a search, with the trimmed text, exactly in the last
    case. *)
Theorem validator_ordered_rules (text : jsstring) : rules_of_code text.
Proof.
  unfold rules_of_code, ordered_rules.
  destruct (validate_cases text) as [C|[C|[C|[C|[C|C]]]]];
    cbv zeta in C; decompose [and] C; clear C;
    split_all;
    intros; try contradiction;
    (split; [assumption | eauto using rejects_no_search, accepts_search_issued]).
Qed.

(** C1, the claim as worded, fails on a tab-separated address: the text
    contains white space and passes every later rule, so the worded rules
    accept it, while the code rejects it with the spacing reason. *)
Lemma validator_rules_as_specified_tab :
  let text := utf16 "서울시" ++ [9] ++ utf16 "송파구" in
  rejects text msg_spacing /\ ~ rules_as_specified text.
Proof.
  cbv zeta. split.
  - intros st. vm_compute. reflexivity.
  - unfold rules_as_specified, ordered_rules.
    intros (_ & _ & _ & _ & _ & H).
    assert (A : accepts (utf16 "서울시" ++ [9] ++ utf16 "송파구")).
    { apply H.
      - discriminate.
      - apply List.Exists_exists. exists 9. split; [|reflexivity].
        vm_compute. tauto.
      - intros E. apply typo_loop_spec in E. vm_compute in E. discriminate.
      - vm_compute. lia.
      - intros E. apply two_tokens_si_spec in E. vm_compute in E.
        discriminate. }
    specialize (A (mkState [] [] [])). vm_compute in A. discriminate.
Qed.

(** C6 (as amended).  Every non-empty address without any white space is
    rejected with the spacing reason. *)
Theorem no_whitespace_rejected (text : jsstring) :
  text <> [] ->
  Forall (fun c => isWhiteSpace c = false) text ->
  rejects text msg_spacing.
Proof.
  intros Hne Hws.
  pose proof (trim_no_whitespace text Hne Hws) as Ht.
  assert (Hsp : ~ In (code " ") (trim text)).
  { rewrite Ht. intros Hin. rewrite List.Forall_forall in Hws.
    apply Hws in Hin. discriminate. }
  destruct (validate_cases text) as [C|[C|[C|[C|[C|C]]]]];
    cbv zeta in C; decompose [and] C; clear C;
    try contradiction; try assumption.
  congruence.
Qed.

Lemma no_whitespace_by_forallb (s : jsstring) :
  forallb (fun c => negb (isWhiteSpace c)) s = true ->
  Forall (fun c => isWhiteSpace c = false) s.
Proof.
  intros E. apply List.Forall_forall. intros c Hin.
  rewrite forallb_forall in E. apply E in Hin.
  apply negb_true_iff. exact Hin.
Qed.

Lemma no_whitespace_rejected_witness :
  rejects (utf16 "서울시송파구") msg_spacing.
Proof.
  apply no_whitespace_rejected.
  - discriminate.
  - apply no_whitespace_by_forallb. reflexivity.
Defined.

(** C6, the claim as worded, fails on the empty address: it has no white
    space, and it is rejected with the "address required" reason. *)
Lemma empty_address_not_spacing :
  Forall (fun c => isWhiteSpace c = false) (utf16 "")
  /\ rejects (utf16 "") msg_required
  /\ ~ rejects (utf16 "") msg_spacing.
Proof.
  split; [constructor |]. split.
  - intros st. reflexivity.
  - intros H. specialize (H (mkState [] [] [])). vm_compute in H.
    discriminate.
Qed.

(** C7 (as amended).  An address of exactly two tokens whose trimmed text
    contains a space character, neither token ending in the concatenation
    pattern, and whose second token ends in 시, is rejected with the
    district-detail reason; a three-token address with the same first two
    tokens passes, provided its trimmed text contains a space character and
    its third token does not end in the concatenation pattern either. *)
Theorem district_detail_rule (two three a b c : jsstring) :
  tokens two = [a; b] ->
  In (code " ") (trim two) ->
  ~ ConcatTypo a -> ~ ConcatTypo b ->
  Suffix (utf16 "시") b ->
  tokens three = [a; b; c] ->
  In (code " ") (trim three) ->
  ~ ConcatTypo c ->
  rejects two msg_district /\ accepts three.
Proof.
  intros T2 S2 Na Nb Hsi T3 S3 Nc.
  assert (N2 : ~ Exists ConcatTypo (tokens two)).
  { rewrite T2. intros E. inversion E as [? ? E1|? ? E1]; subst;
      [tauto | inversion E1; subst; [tauto | inversion H0]]. }
  assert (N3 : ~ Exists ConcatTypo (tokens three)).
  { rewrite T3. intros E. inversion E as [? ? E1|? ? E1]; subst; [tauto |].
    inversion E1 as [? ? E2|? ? E2]; subst; [tauto |].
    inversion E2 as [? ? E3|? ? E3]; subst; [tauto | inversion E3]. }
  split.
  - destruct (validate_cases two) as [C|[C|[C|[C|[C|C]]]]];
      cbv zeta in C; decompose [and] C; clear C;
      try contradiction; try assumption.
    + rewrite tokens_of_empty in T2 by assumption. discriminate.
    + rewrite T2 in *. simpl in *. lia.
    + exfalso. eauto.
  - destruct (validate_cases three) as [C|[C|[C|[C|[C|C]]]]];
      cbv zeta in C; decompose [and] C; clear C;
      try contradiction; try assumption.
    + rewrite tokens_of_empty in T3 by assumption. discriminate.
    + rewrite T3 in *. simpl in *. lia.
    + rewrite T3 in *.
      match goal with H : exists _ _, _ /\ _ |- _ =>
        destruct H as (x & y & E & _); discriminate E end.
Qed.

Lemma not_typo_by_test (tok : jsstring) :
  RegExp.test_dollar typoRegex tok = false -> ~ ConcatTypo tok.
Proof. intros E H. apply typoRegex_test in H. congruence. Qed.

Lemma in_by_includes (t : jsstring) :
  includes t (utf16 " ") = true -> In (code " ") t.
Proof. apply includes_space. Qed.

Lemma suffix_by_endsWith (s p : jsstring) :
  endsWith s p = true -> Suffix p s.
Proof. apply endsWith_spec. Qed.

Lemma district_detail_rule_witness :
  rejects (utf16 "경기도 성남시") msg_district
  /\ accepts (utf16 "경기도 성남시 분당구").
Proof.
  apply (district_detail_rule _ _
           (utf16 "경기도") (utf16 "성남시") (utf16 "분당구")).
  - reflexivity.
  - apply in_by_includes. reflexivity.
  - apply not_typo_by_test. reflexivity.
  - apply not_typo_by_test. reflexivity.
  - apply suffix_by_endsWith. reflexivity.
  - reflexivity.
  - apply in_by_includes. reflexivity.
  - apply not_typo_by_test. reflexivity.
Defined.

(** C7, the claim as worded, fails on three addresses.  A two-token
    address whose first token is a concatenation typo is rejected with the
    spacing reason, not the district-detail reason, although its second
    token ends in 시; so is a two-token address whose tokens are separated
    by a tab and no space; and a three-token address whose first two tokens
    are those of a two-token address ending in 시 is rejected when its
    third token is a concatenation typo. *)
Lemma district_rule_as_specified_fails :
  let two := utf16 "성남시수정구 성남시" in
  let tabbed := utf16 "경기도" ++ [9] ++ utf16 "성남시" in
  let prefix := utf16 "경기도 성남시" in
  let three := utf16 "경기도 성남시 성남시수정구" in
  (tokens two = [utf16 "성남시수정구"; utf16 "성남시"]
   /\ Suffix (utf16 "시") (utf16 "성남시")
   /\ rejects two msg_spacing /\ ~ rejects two msg_district)
  /\ (tokens tabbed = [utf16 "경기도"; utf16 "성남시"]
      /\ rejects tabbed msg_spacing /\ ~ rejects tabbed msg_district)
  /\ (tokens prefix = [utf16 "경기도"; utf16 "성남시"]
      /\ tokens three = [utf16 "경기도"; utf16 "성남시"; utf16 "성남시수정구"]
      /\ rejects three msg_spacing /\ ~ accepts three).
Proof.
  cbv zeta. split_all;
    try reflexivity;
    try (apply suffix_by_endsWith; reflexivity);
    try (intros st; vm_compute; reflexivity);
    intros H; specialize (H (mkState [] [] [])); vm_compute in H;
    discriminate.
Qed.

(** C10.  The "fewer than two tokens" branch is dead code: a trimmed text
    that is not empty and contains white space splits into at least two
    tokens, and no validation ends with the both-levels reason. *)
Theorem both_levels_unreachable (text : jsstring) :
  (trim text <> [] -> HasWhiteSpace (trim text) ->
   (2 <= length (tokens text))%nat)
  /\ (forall st, validateSearchInput text st
                 <> (false,
                     mkState (input st) msg_both_levels (searched st))).
Proof.
  split.
  - intros _ H. apply split_ws_two. exact H.
  - intros st.
    destruct (validate_cases text) as [C|[C|[C|[C|[C|C]]]]];
      cbv zeta in C; decompose [and] C; clear C;
      match goal with
      | H : rejects _ _ |- _ => rewrite (H st)
      | H : accepts _ |- _ => rewrite (H st)
      end; try (intros E; injection E as E; vm_compute in E; discriminate E);
      try discriminate.
    exfalso.
    pose proof (split_ws_two (trim text)
                  (space_is_whitespace _ ltac:(eassumption))).
    unfold tokens in *. lia.
Qed.

(** One address for each outcome, and what a submit does with an
    accepted and with a rejected one. *)
Example validator_examples :
  rejects (utf16 "   ") msg_required
  /\ rejects (utf16 "서울시송파구") msg_spacing
  /\ rejects (utf16 "경기도 성남시수정구") msg_spacing
  /\ rejects (utf16 "경기도 성남시") msg_district
  /\ accepts (utf16 "서울시 송파구")
  /\ accepts (utf16 " 경기도 성남시  분당구 ")
  /\ searched (snd (handleSubmit (mkState (utf16 " 서울시 송파구 ") [] [])))
     = [utf16 "서울시 송파구"]
  /\ searched (snd (handleSubmit (mkState (utf16 "경기도 성남시") [] [])))
     = [].
Proof.
  split_all; try (intros st; vm_compute; reflexivity); reflexivity.
Qed.

End ValidatorTheorems.

(* ===================================================================== *)
(** ** The recency classifier *)
(* ===================================================================== *)

Section RecencyTheorems.

Import Recency.
Context `{Host}.

Lemma SFcompare_Lt_swap (a b : spec_float) :
  SFcompare a b = Some Lt -> SFcompare b a = Some Gt.
Proof.
  destruct a as [sa|sa| |sa ma ea], b as [sb|sb| |sb mb eb]; simpl;
    try discriminate;
    try (destruct sa; discriminate); try (destruct sb; discriminate);
    try (destruct sa, sb; discriminate || reflexivity).
  rewrite (Z.compare_antisym ea eb).
  assert (E : Pos.compare_cont Eq mb ma
              = CompOpp (Pos.compare_cont Eq ma mb))
    by (symmetry; apply (Pos.compare_cont_antisym ma mb Eq)).
  rewrite E.
  destruct sa, sb; try discriminate; try reflexivity;
    destruct (ea ?= eb); simpl; try discriminate; try reflexivity;
    destruct (Pos.compare_cont Eq ma mb); simpl;
    try discriminate; reflexivity.
Qed.

(** On doubles, [x < y] excludes [y <= x]. *)
Lemma ltb_leb_false (x y : float) :
  (x <? y)%float = true -> (y <=? x)%float = false.
Proof.
  rewrite ltb_spec, leb_spec. unfold SFltb, SFleb.
  destruct (SFcompare (Prim2SF x) (Prim2SF y)) as [[| |]|] eqn:E;
    try discriminate.
  intros _. rewrite (SFcompare_Lt_swap _ _ E). reflexivity.
Qed.

Example day_in_ms : (1000 * 3600 * 24)%float = 86400000%float.
Proof. reflexivity. Qed.

(** C2.  [isRecentUpdate] returns [true] exactly when the string splits
    on "." into three parts, the date built from them is valid (its time
    value is not NaN) and the days elapsed since, the difference of the
    time values divided by 86,400,000, lie in [0, 30].  It returns [false]
    for an absent string, for a string that does not split into three
    parts, for an invalid date, for a date in the future and for a date
    more than 30 days old; being a total function, it never raises. *)
Theorem isRecentUpdate_spec (now : float) (dateString : option jsstring) :
  (isRecentUpdate now dateString = true <->
   exists s p0 p1 p2,
     dateString = Some s
     /\ split_char (code ".") s = [p0; p1; p2]
     /\ is_nan (parsedDate p0 p1 p2) = false
     /\ (0 <=? elapsedDays now p0 p1 p2)%float = true
     /\ (elapsedDays now p0 p1 p2 <=? 30)%float = true)
  /\ (dateString = None -> isRecentUpdate now dateString = false)
  /\ (forall s, dateString = Some s ->
       length (split_char (code ".") s) <> 3%nat ->
       isRecentUpdate now dateString = false)
  /\ (forall s p0 p1 p2, dateString = Some s ->
       split_char (code ".") s = [p0; p1; p2] ->
       is_nan (parsedDate p0 p1 p2) = true
       \/ (elapsedDays now p0 p1 p2 <? 0)%float = true
       \/ (30 <? elapsedDays now p0 p1 p2)%float = true ->
       isRecentUpdate now dateString = false).
Proof.
  assert (Hrun : forall s p0 p1 p2,
             split_char (code ".") s = [p0; p1; p2] ->
             isRecentUpdate now (Some s)
             = (if is_nan (parsedDate p0 p1 p2) then false
                else (0 <=? elapsedDays now p0 p1 p2)%float
                     && (elapsedDays now p0 p1 p2 <=? 30)%float)).
  { intros s p0 p1 p2 E. unfold isRecentUpdate. rewrite E.
    destruct s as [|c s]; [discriminate E |]. reflexivity. }
  assert (Hshape : forall s, length (split_char (code ".") s) <> 3%nat ->
                             isRecentUpdate now (Some s) = false).
  { intros s Hlen. unfold isRecentUpdate.
    destruct (length s =? 0)%nat; [reflexivity |].
    destruct (length (split_char (code ".") s) =? 3)%nat eqn:E;
      [apply Nat.eqb_eq in E; contradiction | reflexivity]. }
  split; [|split; [|split]].
  - split.
    + destruct dateString as [s|]; [|discriminate].
      destruct (split_char (code ".") s) as [|p0 [|p1 [|p2 [|p3 l]]]] eqn:E;
        try (rewrite Hshape by (rewrite E; simpl; lia); discriminate).
      rewrite (Hrun s p0 p1 p2 E).
      destruct (is_nan (parsedDate p0 p1 p2)) eqn:En; [discriminate |].
      intros Hb. apply andb_true_iff in Hb as [Hb1 Hb2].
      exists s, p0, p1, p2. auto.
    + intros (s & p0 & p1 & p2 & -> & E & En & Hb1 & Hb2).
      rewrite (Hrun s p0 p1 p2 E), En, Hb1, Hb2. reflexivity.
  - intros ->. reflexivity.
  - intros s -> Hlen. apply Hshape. exact Hlen.
  - intros s p0 p1 p2 -> E Hbad. rewrite (Hrun s p0 p1 p2 E).
    destruct Hbad as [-> | [Hneg | Hold]]; [reflexivity | |].
    + rewrite (ltb_leb_false _ _ Hneg).
      destruct (is_nan (parsedDate p0 p1 p2)); reflexivity.
    + rewrite (ltb_leb_false _ _ Hold), andb_false_r.
      destruct (is_nan (parsedDate p0 p1 p2)); reflexivity.
Qed.

(** On the UTC host, with the clock at 2026-11-03T00:00:00Z: a date 14
    days old is recent, the day itself and the thirtieth day before are
    recent, the thirty-first day before and the next day are not, and
    malformed strings are not. *)
Example isRecentUpdate_examples :
  let now := 1793664000000%float in
  let recent s := isRecentUpdate (H := UTCHost.host) now (Some s) in
  recent (utf16 "2026.10.20") = true
  /\ recent (utf16 "2026.11.03") = true
  /\ recent (utf16 "2026.10.04") = true
  /\ recent (utf16 "2026.10.03") = false
  /\ recent (utf16 "2026.11.04") = false
  /\ recent (utf16 "2026.11") = false
  /\ recent (utf16 "2026-11-03") = false
  /\ recent (utf16 "a.b.c") = false
  /\ recent (utf16 "") = false.
Proof. vm_compute. repeat split. Qed.

End RecencyTheorems.

(* ===================================================================== *)
(** ** The badge aggregator *)
(* ===================================================================== *)

Section BadgeTheorems.

Import Badges.
Context `{Host}.

Lemma init_entry_lookup (k k' : CategoryType) (m : badges) :
  init_entry k m !! k' =
  match m !! k' with
  | Some r => Some r
  | None => if decide (k = k') then Some (mkBadge false false) else None
  end.
Proof.
  unfold init_entry. destruct (m !! k) as [r|] eqn:E.
  - destruct (m !! k') eqn:E'; [reflexivity |].
    destruct (decide (k = k')); [congruence | reflexivity].
  - destruct (decide (k = k')) as [<-|Hne].
    + rewrite lookup_insert_eq, E. reflexivity.
    + rewrite lookup_insert_ne by exact Hne. destruct (m !! k'); reflexivity.
Qed.

Lemma set_hasNew_lookup (k k' : CategoryType) (m : badges) :
  set_hasNew k m !! k' =
  if decide (k = k')
  then (fun r => mkBadge true (hasUpdate r)) <$> m !! k'
  else m !! k'.
Proof.
  unfold set_hasNew. destruct (decide (k = k')) as [<-|Hne].
  - apply lookup_alter_eq.
  - apply lookup_alter_ne. exact Hne.
Qed.

Lemma set_hasUpdate_lookup (k k' : CategoryType) (m : badges) :
  set_hasUpdate k m !! k' =
  if decide (k = k')
  then (fun r => mkBadge (hasNew r) true) <$> m !! k'
  else m !! k'.
Proof.
  unfold set_hasUpdate. destruct (decide (k = k')) as [<-|Hne].
  - apply lookup_alter_eq.
  - apply lookup_alter_ne. exact Hne.
Qed.

(** What one invocation of the callback leaves at the key [k]. *)
Lemma callback_lookup (now : float) (b : Benefit) (m : badges)
  (k : CategoryType) :
  callback now b m !! k =
  let touched := bool_decide (k = category b \/ k = ALL) in
  let recent := Recency.isRecentUpdate now (lastUpdated b) in
  let old := match m !! k with
             | Some r => Some r
             | None => if touched then Some (mkBadge false false) else None
             end in
  if touched && recent then
    match updateType b with
    | Some NEW => (fun r => mkBadge true (hasUpdate r)) <$> old
    | Some UPDATE => (fun r => mkBadge (hasNew r) true) <$> old
    | None => old
    end
  else old.
Proof.
  unfold callback. cbv zeta.
  destruct (Recency.isRecentUpdate now (lastUpdated b));
    [destruct (updateType b) as [[|]|] |];
    rewrite ?set_hasNew_lookup, ?set_hasUpdate_lookup, !init_entry_lookup;
    destruct (m !! k) as [[n u]|]; simpl;
    repeat case_decide; repeat case_bool_decide; simpl;
    try reflexivity; try (exfalso; intuition congruence).
Qed.

Lemma callback_flagAt (now : float) (b : Benefit) (m : badges)
  (u : UpdateType) (k : CategoryType) :
  flagAt u (callback now b m) k = true
  <-> flagAt u m k = true \/ contributes now b u k.
Proof.
  unfold flagAt, newAt, updateAt, contributes.
  rewrite callback_lookup. cbv zeta.
  destruct u, (Recency.isRecentUpdate now (lastUpdated b)),
    (updateType b) as [[|]|], (m !! k) as [[n v]|];
    case_bool_decide; simpl; intuition (discriminate || congruence).
Qed.

Lemma callback_dom (now : float) (b : Benefit) (m : badges)
  (k : CategoryType) :
  is_Some (callback now b m !! k)
  <-> is_Some (m !! k) \/ k = category b \/ k = ALL.
Proof.
  rewrite callback_lookup. cbv zeta.
  destruct (Recency.isRecentUpdate now (lastUpdated b)),
    (updateType b) as [[|]|], (m !! k) as [[n v]|];
    case_bool_decide; simpl; rewrite ?is_Some_alt;
    intuition (try discriminate; eauto).
Qed.

Lemma callback_grows (now : float) (b : Benefit) (m : badges) :
  grows m (callback now b m).
Proof.
  intros k [n v] E. rewrite callback_lookup, E. cbv zeta.
  destruct (bool_decide (k = category b \/ k = ALL)),
    (Recency.isRecentUpdate now (lastUpdated b)),
    (updateType b) as [[|]|]; simpl; eauto.
Qed.

Lemma grows_refl (m : badges) : grows m m.
Proof. intros k r E. eauto. Qed.

Lemma grows_trans (m1 m2 m3 : badges) :
  grows m1 m2 -> grows m2 m3 -> grows m1 m3.
Proof.
  intros H12 H23 k r E.
  destruct (H12 k r E) as (r2 & E2 & Hn2 & Hu2).
  destruct (H23 k r2 E2) as (r3 & E3 & Hn3 & Hu3).
  exists r3. auto.
Qed.

Lemma forEach_grows (clock : nat -> float) (i : nat) (bs : list Benefit)
  (m : badges) :
  grows m (forEach clock i bs m).
Proof.
  revert i m; induction bs as [|b bs IH]; intros i m; simpl.
  - apply grows_refl.
  - eapply grows_trans; [apply callback_grows | apply IH].
Qed.

Lemma forEach_app (clock : nat -> float) (i : nat)
  (pre post : list Benefit) (m : badges) :
  forEach clock i (pre ++ post) m
  = forEach clock (i + length pre) post (forEach clock i pre m).
Proof.
  revert i m; induction pre as [|b pre IH]; intros i m; simpl.
  - rewrite Nat.add_0_r. reflexivity.
  - rewrite IH. f_equal. lia.
Qed.

Lemma forEach_flagAt (clock : nat -> float) (i : nat) (bs : list Benefit)
  (m : badges) (u : UpdateType) (k : CategoryType) :
  flagAt u (forEach clock i bs m) k = true
  <-> flagAt u m k = true
      \/ exists j b, bs !! j = Some b
                     /\ contributes (clock (i + j)%nat) b u k.
Proof.
  revert i m; induction bs as [|b bs IH]; intros i m; simpl.
  - split; [auto | intros [E | (j & b & E & _)]; [exact E | discriminate E]].
  - rewrite IH, callback_flagAt. split.
    + intros [[E | C] | (j & b' & E & C)].
      * left; exact E.
      * right. exists 0%nat, b. rewrite Nat.add_0_r. auto.
      * right. exists (S j), b'.
        replace (i + S j)%nat with (S i + j)%nat by lia. auto.
    + intros [E | (j & b' & E & C)]; [auto |].
      destruct j as [|j]; simpl in E.
      * injection E as <-. rewrite Nat.add_0_r in C. auto.
      * right. exists j, b'.
        replace (S i + j)%nat with (i + S j)%nat by lia. auto.
Qed.

Lemma forEach_dom (clock : nat -> float) (i : nat) (bs : list Benefit)
  (m : badges) (k : CategoryType) :
  is_Some (forEach clock i bs m !! k)
  <-> is_Some (m !! k)
      \/ exists b, In b bs /\ (k = category b \/ k = ALL).
Proof.
  revert i m; induction bs as [|b bs IH]; intros i m; simpl.
  - split; [auto | intros [E | (b & [] & _)]; exact E].
  - rewrite IH, callback_dom. split.
    + intros [[E | C] | (b' & Hin & C)]; eauto 6.
    + intros [E | (b' & [<- | Hin] & C)]; eauto 6.
Qed.

Lemma flagAt_lookup (u : UpdateType) (m : badges) (k : CategoryType)
  (r : Badge) :
  m !! k = Some r ->
  flagAt u m k = match u with NEW => hasNew r | UPDATE => hasUpdate r end.
Proof. intros E. unfold flagAt, newAt, updateAt. rewrite E. destruct u; reflexivity. Qed.

(** C3.  [computeCategoryBadges] returns the empty mapping on the empty
    list.  Its keys are the categories of the benefits, and ALL when there
    is a benefit.  At a key, [hasNew] is set exactly when some benefit of
    that category (any benefit, for ALL) is recent with updateType NEW, and
    [hasUpdate] exactly when one is recent with updateType UPDATE; so a
    recent NEW benefit sets [hasNew] at its category and at ALL, a recent
    UPDATE benefit sets [hasUpdate] at both, and a benefit without
    updateType changes no flag.  On a single recent NEW benefit of category
    FREE the result is FREE and ALL, each with [hasNew] only. *)
Theorem computeCategoryBadges_spec (clock : nat -> float) :
  computeCategoryBadges clock [] = ∅
  /\ (forall bs k,
        is_Some (computeCategoryBadges clock bs !! k)
        <-> exists b, In b bs /\ (k = category b \/ k = ALL))
  /\ (forall bs k r,
        computeCategoryBadges clock bs !! k = Some r ->
        (hasNew r = true
         <-> exists j b, bs !! j = Some b /\ contributes (clock j) b NEW k)
        /\ (hasUpdate r = true
            <-> exists j b, bs !! j = Some b
                           /\ contributes (clock j) b UPDATE k))
  /\ (forall bs j b,
        bs !! j = Some b ->
        Recency.isRecentUpdate (clock j) (lastUpdated b) = true ->
        (updateType b = Some NEW ->
         newAt (computeCategoryBadges clock bs) (category b) = true
         /\ newAt (computeCategoryBadges clock bs) ALL = true)
        /\ (updateType b = Some UPDATE ->
            updateAt (computeCategoryBadges clock bs) (category b) = true
            /\ updateAt (computeCategoryBadges clock bs) ALL = true))
  /\ (forall now b m k,
        updateType b = None ->
        newAt (callback now b m) k = newAt m k
        /\ updateAt (callback now b m) k = updateAt m k)
  /\ (forall b,
        Recency.isRecentUpdate (clock 0%nat) (lastUpdated b) = true ->
        updateType b = Some NEW ->
        category b = FREE ->
        computeCategoryBadges clock [b]
        = {[ FREE := mkBadge true false; ALL := mkBadge true false ]}).
Proof.
  unfold computeCategoryBadges.
  split; [reflexivity |]. split; [|split; [|split; [|split]]].
  - intros bs k. rewrite forEach_dom, lookup_empty, is_Some_alt. tauto.
  - intros bs k r E.
    pose proof (forEach_flagAt clock 0 bs ∅ NEW k) as HN.
    pose proof (forEach_flagAt clock 0 bs ∅ UPDATE k) as HU.
    rewrite (flagAt_lookup NEW _ _ _ E) in HN.
    rewrite (flagAt_lookup UPDATE _ _ _ E) in HU. simpl in HN, HU.
    unfold newAt, updateAt in HN, HU. rewrite lookup_empty in HN, HU.
    split; [rewrite HN | rewrite HU]; intuition discriminate.
  - intros bs j b E R. split; intros U.
    + split; apply (forEach_flagAt clock 0 bs ∅ NEW); right;
        exists j, b; unfold contributes; auto.
    + split; apply (forEach_flagAt clock 0 bs ∅ UPDATE); right;
        exists j, b; unfold contributes; auto.
  - intros now b m k U. unfold newAt, updateAt.
    rewrite callback_lookup, U. cbv zeta.
    destruct (bool_decide (k = category b \/ k = ALL) && _),
      (m !! k) as [[n v]|], (bool_decide (k = category b \/ k = ALL));
      auto.
  - intros b R U C. simpl. unfold callback. rewrite R, U, C. reflexivity.
Qed.

(** C8.  In one aggregation pass a flag that is set stays set: each
    invocation of the callback keeps every key of the accumulator and every
    flag that is [true] in it, and so does the rest of the pass from any
    accumulator, and from the result on any prefix of the list to the
    result on the whole list. *)
Theorem flags_never_reset (clock : nat -> float) :
  (forall now b m, grows m (callback now b m))
  /\ (forall i bs m, grows m (forEach clock i bs m))
  /\ (forall pre post,
        grows (computeCategoryBadges clock pre)
              (computeCategoryBadges clock (pre ++ post))).
Proof.
  split; [|split].
  - intros now b m. apply callback_grows.
  - intros i bs m. apply forEach_grows.
  - intros pre post. unfold computeCategoryBadges.
    rewrite forEach_app. apply forEach_grows.
Qed.

End BadgeTheorems.

(** On the UTC host, with the clock at 2026-11-03T00:00:00Z. *)
Lemma computeCategoryBadges_witness :
  @Badges.computeCategoryBadges UTCHost.host (fun _ => 1793664000000%float)
    [free_new_example]
  = {[ FREE := Badges.mkBadge true false; ALL := Badges.mkBadge true false ]}.
Proof.
  apply (@computeCategoryBadges_spec UTCHost.host
           (fun _ => 1793664000000%float)); reflexivity.
Defined.

(* ===================================================================== *)
(** ** Filtering *)
(* ===================================================================== *)

Section FilterTheorems.

Import LocalPage.

Lemma region_contains (r : option jsstring) (q : jsstring) :
  (exists s, r = Some s /\ Substring q s)
  <-> match r with
      | Some s => includes s q = true
      | None => False
      end.
Proof.
  destruct r as [s|].
  - rewrite includes_spec. split.
    + intros (s' & E & Hs). injection E as <-. exact Hs.
    + eauto.
  - split; [intros (s & E & _); discriminate | contradiction].
Qed.

(** The callback of the filter decides [Passes]. *)
Lemma keep_spec (selectedSido districtInput : jsstring) (b : Benefit) :
  keep selectedSido districtInput b = true
  <-> Passes selectedSido districtInput b.
Proof.
  unfold keep, Passes, str_eqb, optional_includes.
  rewrite !region_contains, <- !includes_spec.
  assert (L : (0 <? length (trim districtInput))%nat = true
              <-> trim districtInput <> []).
  { rewrite Nat.ltb_lt. destruct (trim districtInput); simpl;
      split; (congruence || lia). }
  destruct (0 <? length (trim districtInput))%nat;
    case_bool_decide as Es;
    destruct (regionTarget b) as [r|]; simpl;
    repeat match goal with
           | |- context [includes ?x ?y] => destruct (includes x y)
           end;
    simpl; intuition (discriminate || congruence).
Qed.

Lemma filter_sublist {A} (p : A -> bool) (l : list A) :
  sublist (List.filter p l) l.
Proof.
  induction l as [|x l IH]; simpl; [constructor |].
  destruct (p x); constructor; exact IH.
Qed.

Lemma filter_twice {A} (p q : A -> bool) (l : list A) :
  List.filter q (List.filter p l) = List.filter (fun x => p x && q x) l.
Proof.
  induction l as [|x l IH]; simpl; [reflexivity |].
  destruct (p x); simpl; [destruct (q x) |]; rewrite ?IH; reflexivity.
Qed.

Lemma keep_stages (selectedSido districtInput : jsstring) (b : Benefit) :
  keep selectedSido districtInput b
  = keep selectedSido [] b && keep sido_all districtInput b.
Proof.
  unfold keep. change (str_eqb sido_all sido_all) with true.
  change (0 <? length (trim []))%nat with false. cbn [negb andb].
  destruct (negb (str_eqb selectedSido sido_all)
            && not_opt (optional_includes (regionTarget b) selectedSido));
    reflexivity.
Qed.

(** C4.  For every list, province selection and text query, a benefit is
    in the output of the filter exactly when it is in the input and passes
    both stages: when the province is not the sentinel 전체, its
    [regionTarget] is present and contains the province; and when the
    trimmed query is not empty, the trimmed query occurs in its title, in
    its description or in its present [regionTarget].  The stages compose
    by conjunction (filtering by both is filtering by the province, then by
    the text), and the output is a sub-list of the input: the relative
    order is kept. *)
Theorem filteredBenefits_spec (benefits : list Benefit)
  (selectedSido districtInput : jsstring) :
  (forall b,
      In b (filteredBenefits benefits selectedSido districtInput)
      <-> In b benefits /\ Passes selectedSido districtInput b)
  /\ filteredBenefits benefits selectedSido districtInput
     = filteredBenefits (filteredBenefits benefits selectedSido [])
                        sido_all districtInput
  /\ sublist (filteredBenefits benefits selectedSido districtInput) benefits
  /\ (forall b,
        filteredBenefits [b] selectedSido districtInput = [b]
        \/ filteredBenefits [b] selectedSido districtInput = []).
Proof.
  unfold filteredBenefits. split; [|split; [|split]].
  - intros b. rewrite filter_In, keep_spec. reflexivity.
  - rewrite filter_twice. apply filter_ext. intros b. apply keep_stages.
  - apply filter_sublist.
  - intros b. simpl. destruct (keep selectedSido districtInput b); auto.
Qed.

(** The example of the specification: of a Seoul and a Busan benefit, the
    province 서울 keeps the first only. *)
Example filteredBenefits_seoul :
  let seoul := benefit "1" (Some (utf16 "서울")) None in
  let busan := benefit "2" (Some (utf16 "부산")) None in
  filteredBenefits [seoul; busan] (utf16 "서울") (utf16 "") = [seoul]
  /\ filteredBenefits [seoul; busan] (utf16 "전체") (utf16 " ")
     = [seoul; busan]
  /\ filteredBenefits [seoul; benefit "3" None None] (utf16 "서울")
       (utf16 "") = [seoul].
Proof. vm_compute. repeat split. Qed.

End FilterTheorems.

(* ===================================================================== *)
(** ** Envy sorting *)
(* ===================================================================== *)

Section SortTheorems.

Import LocalPage.

Lemma envy_default (b : Benefit) :
  envy b = match envyCount b with Some n => n | None => 0 end.
Proof.
  unfold envy, or_zero. destruct (envyCount b) as [n|]; [|reflexivity].
  destruct (Z.eqb_spec n 0); congruence.
Qed.

Lemma compareEnvy_le (x y : Benefit) :
  (compareEnvy x y <=? 0) = true <-> envy y <= envy x.
Proof. unfold compareEnvy, envy. rewrite Z.leb_le. lia. Qed.

Lemma insert_Permutation (x : Benefit) (l : list Benefit) :
  Permutation (insert compareEnvy x l) (x :: l).
Proof.
  induction l as [|y l IH]; simpl; [reflexivity |].
  destruct (compareEnvy x y <=? 0); [reflexivity |].
  rewrite IH. apply perm_swap.
Qed.

Lemma sort_Permutation (l : list Benefit) :
  Permutation (sort compareEnvy l) l.
Proof.
  induction l as [|x l IH]; simpl; [reflexivity |].
  rewrite insert_Permutation, IH. reflexivity.
Qed.

Lemma insert_sorted (x : Benefit) (l : list Benefit) :
  StronglySorted desc l -> StronglySorted desc (insert compareEnvy x l).
Proof.
  induction 1 as [|y l Hs IH Hy]; simpl.
  - repeat constructor.
  - destruct (compareEnvy x y <=? 0) eqn:E.
    + apply compareEnvy_le in E. constructor; [constructor; assumption |].
      constructor; [exact E |].
      eapply List.Forall_impl; [|exact Hy]. unfold desc. intros z Hz. lia.
    + assert (envy x < envy y).
      { destruct (Z.leb_spec (compareEnvy x y) 0); [discriminate |].
        unfold compareEnvy, envy in *. lia. }
      constructor; [exact IH |].
      rewrite (insert_Permutation x l). constructor; [|exact Hy].
      unfold desc. lia.
Qed.

Lemma sort_sorted (l : list Benefit) :
  StronglySorted desc (sort compareEnvy l).
Proof.
  induction l as [|x l IH]; simpl; [constructor | apply insert_sorted, IH].
Qed.

Lemma insert_with_key (n : Z) (x : Benefit) (l : list Benefit) :
  with_key n (insert compareEnvy x l) = with_key n (x :: l).
Proof.
  unfold with_key. induction l as [|y l IH]; simpl; [reflexivity |].
  destruct (compareEnvy x y <=? 0) eqn:E; [reflexivity |].
  assert (envy x < envy y).
  { destruct (Z.leb_spec (compareEnvy x y) 0); [discriminate |].
    unfold compareEnvy, envy in *. lia. }
  simpl. rewrite IH. simpl.
  destruct (Z.eqb_spec (envy x) n), (Z.eqb_spec (envy y) n);
    try reflexivity; lia.
Qed.

Lemma sort_with_key (n : Z) (l : list Benefit) :
  with_key n (sort compareEnvy l) = with_key n l.
Proof.
  induction l as [|x l IH]; simpl; [reflexivity |].
  rewrite insert_with_key. unfold with_key in *. simpl. rewrite IH.
  reflexivity.
Qed.

(** A list sorted by the key is determined by its elements of each key,
    taken in order: whatever stable algorithm an engine runs, it returns
    the list that [sort] returns. *)
Lemma stable_sorted_unique (l1 l2 : list Benefit) :
  StronglySorted desc l1 -> StronglySorted desc l2 ->
  (forall n, with_key n l1 = with_key n l2) ->
  l1 = l2.
Proof.
  intros S1; revert l2.
  induction S1 as [|x l1 S1 IH Hx]; intros l2 S2 K.
  - destruct l2 as [|y l2]; [reflexivity |].
    specialize (K (envy y)). unfold with_key in K. simpl in K.
    rewrite Z.eqb_refl in K. discriminate.
  - destruct S2 as [|y l2 S2 Hy].
    { specialize (K (envy x)). unfold with_key in K. simpl in K.
      rewrite Z.eqb_refl in K. discriminate. }
    assert (In1 : forall z, In z (x :: l1) <-> In z (y :: l2)).
    { intros z. pose proof (K (envy z)) as Kz. unfold with_key in Kz.
      split; intros Hin.
      - assert (In z (List.filter (fun b => envy b =? envy z) (x :: l1)))
          as Hf by (apply filter_In; split; [exact Hin | apply Z.eqb_refl]).
        rewrite Kz in Hf. apply filter_In in Hf. tauto.
      - assert (In z (List.filter (fun b => envy b =? envy z) (y :: l2)))
          as Hf by (apply filter_In; split; [exact Hin | apply Z.eqb_refl]).
        rewrite <- Kz in Hf. apply filter_In in Hf. tauto. }
    assert (Exy : envy x = envy y).
    { rewrite List.Forall_forall in Hx, Hy. unfold desc in Hx, Hy.
      assert (envy x <= envy y).
      { destruct (proj1 (In1 x) (or_introl eq_refl)) as [<-|Hin];
          [lia | apply Hy, Hin]. }
      assert (envy y <= envy x).
      { destruct (proj2 (In1 y) (or_introl eq_refl)) as [<-|Hin];
          [lia | apply Hx, Hin]. }
      lia. }
    pose proof (K (envy x)) as Kx. unfold with_key in Kx. simpl in Kx.
    rewrite <- Exy, Z.eqb_refl in Kx. injection Kx as <- Kx.
    f_equal. apply IH; [exact S2 |].
    intros n. pose proof (K n) as Kn. unfold with_key in *. simpl in Kn.
    destruct (envy x =? n); [injection Kn as Kn |]; exact Kn.
Qed.

Lemma displayBenefits_envy (h : store) (a : positive) (bs : list Benefit) :
  h !! a = Some bs ->
  let c := fresh (dom h) in
  c <> a
  /\ displayBenefits TAB_ENVY a h
     = (c, <[c := sort compareEnvy bs]> (<[c := bs]> h)).
Proof.
  intros E c. split.
  - intros Ec. apply (is_fresh (dom h)). fold c. rewrite Ec.
    apply elem_of_dom. eauto.
  - unfold displayBenefits, spread, sort_in_place. fold c.
    rewrite lookup_total_insert_eq.
    rewrite (lookup_total_correct h a bs E). reflexivity.
Qed.

(** C5.  In envy mode the displayed array holds the filtered benefits
    ordered descending by [envyCount], an absent count being zero, and the
    sort is stable: the benefits of each count keep their relative order.
    On the counts 5, 9, 9 of the benefits 1, 2, 3 the order is 2, 3, 1. *)
Theorem envy_sort_spec (h : store) (a : positive) (bs : list Benefit) :
  h !! a = Some bs ->
  (exists d h' out,
      displayBenefits TAB_ENVY a h = (d, h')
      /\ h' !! d = Some out
      /\ Permutation out bs
      /\ StronglySorted desc out
      /\ (forall n, with_key n out = with_key n bs)
      /\ (forall out',
            StronglySorted desc out' ->
            (forall n, with_key n out' = with_key n bs) ->
            out' = out))
  /\ (forall b, envy b = match envyCount b with Some n => n | None => 0 end)
  /\ map id (sort compareEnvy envy_example)
     = [utf16 "2"; utf16 "3"; utf16 "1"].
Proof.
  intros E. split; [|split; [apply envy_default | reflexivity]].
  destruct (displayBenefits_envy h a bs E) as [_ D].
  eexists _, _, (sort compareEnvy bs). split; [exact D |].
  split; [apply lookup_insert_eq |].
  split; [apply sort_Permutation |].
  split; [apply sort_sorted |].
  split; [intros n; apply sort_with_key |].
  intros out' S K. apply stable_sorted_unique; [exact S | apply sort_sorted |].
  intros n. rewrite K. symmetry. apply sort_with_key.
Qed.

(** C9.  Producing the display list leaves the filtered array as it was,
    element for element, and every other array of the store too; in envy
    mode the sorted array is a new one. *)
Theorem displayBenefits_frame (tab : Tab) (h : store) (a : positive)
  (bs : list Benefit) :
  h !! a = Some bs ->
  exists d h',
    displayBenefits tab a h = (d, h')
    /\ h' !! a = Some bs
    /\ (forall a' v, h !! a' = Some v -> h' !! a' = Some v)
    /\ (tab = TAB_ENVY -> d <> a /\ h !! d = None)
    /\ (tab = TAB_ALL -> d = a /\ h' = h).
Proof.
  intros E. destruct tab.
  - exists a, h. repeat split; auto; discriminate.
  - destruct (displayBenefits_envy h a bs E) as [Hc D]. cbv zeta in *.
    set (c := fresh (dom h)) in *.
    assert (Hfresh : h !! c = None)
      by (apply not_elem_of_dom, is_fresh).
    eexists _, _. split; [exact D |].
    assert (F : forall a' v, h !! a' = Some v ->
                (<[c := sort compareEnvy bs]> (<[c := bs]> h)) !! a'
                = Some v).
    { intros a' v E'. assert (c <> a') by congruence.
      rewrite !lookup_insert_ne by assumption. exact E'. }
    split; [apply F; exact E |]. split; [exact F |].
    split; [auto | discriminate].
Qed.

Lemma envy_sort_spec_witness :
  exists d h' out,
    displayBenefits TAB_ENVY 1%positive {[ 1%positive := envy_example ]}
    = (d, h')
    /\ h' !! d = Some out
    /\ Permutation out envy_example
    /\ StronglySorted desc out
    /\ (forall n, with_key n out = with_key n envy_example)
    /\ (forall out',
          StronglySorted desc out' ->
          (forall n, with_key n out' = with_key n envy_example) ->
          out' = out).
Proof.
  apply (envy_sort_spec {[ 1%positive := envy_example ]} 1%positive
           envy_example).
  reflexivity.
Defined.

Lemma displayBenefits_frame_witness :
  exists d h',
    displayBenefits TAB_ENVY 1%positive {[ 1%positive := envy_example ]}
    = (d, h')
    /\ h' !! 1%positive = Some envy_example
    /\ (forall a' v,
          ({[ 1%positive := envy_example ]} : store) !! a' = Some v ->
          h' !! a' = Some v)
    /\ (TAB_ENVY = TAB_ENVY ->
        d <> 1%positive
        /\ ({[ 1%positive := envy_example ]} : store) !! d = None)
    /\ (TAB_ENVY = TAB_ALL ->
        d = 1%positive /\ h' = {[ 1%positive := envy_example ]}).
Proof.
  apply (displayBenefits_frame TAB_ENVY {[ 1%positive := envy_example ]}
           1%positive envy_example).
  reflexivity.
Defined.

(** The store after the display list of the example is produced in envy
    mode: the filtered array at its reference, unchanged, and the sorted
    copy at a new one. *)
Example displayBenefits_example :
  displayBenefits TAB_ENVY 1%positive {[ 1%positive := envy_example ]}
  = (2%positive,
     {[ 1%positive := envy_example;
        2%positive := [benefit "2" None (Some 9); benefit "3" None (Some 9);
                       benefit "1" None (Some 5)] ]}).
Proof. vm_compute. reflexivity. Qed.

End SortTheorems.

(* ===================================================================== *)
(** ** More on the address validator *)
(* ===================================================================== *)

Section ValidatorMore.

Import Home.

Lemma dropWhile_all (p : Z -> bool) (l r : jsstring) :
  Forall (fun c => p c = true) l -> dropWhile p (l ++ r) = dropWhile p r.
Proof.
  induction 1 as [|c l Hc Hl IH]; simpl; [reflexivity |].
  rewrite Hc. exact IH.
Qed.

Lemma dropWhile_app_stop (p : Z -> bool) (l r : jsstring) :
  dropWhile p l <> [] -> dropWhile p (l ++ r) = dropWhile p l ++ r.
Proof.
  induction l as [|c l IH]; simpl; [congruence |].
  destruct (p c); [exact IH | reflexivity].
Qed.

Lemma dropWhile_nil_all (p : Z -> bool) (l : jsstring) :
  dropWhile p l = [] -> Forall (fun c => p c = true) l.
Proof.
  induction l as [|c l IH]; simpl; [constructor |].
  destruct (p c) eqn:E; [|discriminate].
  intros H. constructor; auto.
Qed.

Lemma trimEnd_pad (u post : jsstring) :
  Forall (fun c => isWhiteSpace c = true) post ->
  trimEnd (u ++ post) = trimEnd u.
Proof.
  intros H. unfold trimEnd. rewrite rev_app_distr.
  rewrite dropWhile_all by (apply Forall_rev; exact H). reflexivity.
Qed.

(** White space around a text does not change what [trim] returns. *)
Lemma trim_pad (pre s post : jsstring) :
  Forall (fun c => isWhiteSpace c = true) pre ->
  Forall (fun c => isWhiteSpace c = true) post ->
  trim (pre ++ s ++ post) = trim s.
Proof.
  intros Hpre Hpost. unfold trim, trimStart.
  rewrite dropWhile_all by exact Hpre.
  destruct (dropWhile isWhiteSpace s) as [|c u] eqn:E.
  - apply dropWhile_nil_all in E.
    rewrite dropWhile_all by exact E.
    assert (E' : dropWhile isWhiteSpace post = []).
    { rewrite <- (app_nil_r post). rewrite dropWhile_all by exact Hpost.
      reflexivity. }
    rewrite E'. reflexivity.
  - rewrite dropWhile_app_stop by (rewrite E; discriminate).
    rewrite E. apply trimEnd_pad. exact Hpost.
Qed.

Lemma trim_idempotent (s : jsstring) : trim (trim s) = trim s.
Proof.
  destruct (trim_spec s) as (pre & post & E & Hpre & Hpost & _).
  rewrite E at 2. symmetry. apply trim_pad; assumption.
Qed.

Lemma validate_of_trim (text1 text2 : jsstring) :
  trim text1 = trim text2 ->
  validateSearchInput text1 = validateSearchInput text2.
Proof. intros E. unfold validateSearchInput. rewrite E. reflexivity. Qed.

(** X1.  White space before and after an address changes neither the verdict
    nor the reason of [validateSearchInput], and the search that a submit
    issues is for the same string. *)
Theorem validator_ignores_outer_whitespace (pre text post : jsstring) :
  Forall (fun c => isWhiteSpace c = true) pre ->
  Forall (fun c => isWhiteSpace c = true) post ->
  validateSearchInput (pre ++ text ++ post) = validateSearchInput text
  /\ trim (pre ++ text ++ post) = trim text
  /\ validateSearchInput (trim text) = validateSearchInput text.
Proof.
  intros Hpre Hpost.
  pose proof (trim_pad pre text post Hpre Hpost) as E.
  split; [apply validate_of_trim; exact E |].
  split; [exact E |].
  apply validate_of_trim, trim_idempotent.
Qed.

Lemma whitespace_by_forallb (s : jsstring) :
  forallb isWhiteSpace s = true ->
  Forall (fun c => isWhiteSpace c = true) s.
Proof.
  intros E. apply List.Forall_forall. intros c Hin.
  rewrite forallb_forall in E. apply E. exact Hin.
Qed.

Lemma validator_ignores_outer_whitespace_witness :
  validateSearchInput (utf16 "  " ++ utf16 "서울시 송파구" ++ [9; 10])
  = validateSearchInput (utf16 "서울시 송파구")
  /\ trim (utf16 "  " ++ utf16 "서울시 송파구" ++ [9; 10])
     = trim (utf16 "서울시 송파구")
  /\ validateSearchInput (trim (utf16 "서울시 송파구"))
     = validateSearchInput (utf16 "서울시 송파구").
Proof.
  apply validator_ignores_outer_whitespace;
    apply whitespace_by_forallb; reflexivity.
Defined.

(** Between two non-white-space ends, no piece of a split is empty. *)
Lemma split_ws_go_nonempty (s tok : jsstring) (b : bool) :
  (s = [] -> tok <> []) ->
  (forall c s', s = s' ++ [c] -> isWhiteSpace c = false) ->
  (b = false -> tok = [] -> exists c s', s = c :: s' /\ isWhiteSpace c = false) ->
  Forall (fun t => t <> []) (split_ws_go s tok b).
Proof.
  revert tok b; induction s as [|c s IH]; intros tok b Hnil Hlast Hhead.
  - simpl. constructor; [|constructor].
    intros E. apply (Hnil eq_refl).
    rewrite <- (rev_involutive tok), E. reflexivity.
  - assert (Hlast' : forall d s', s = s' ++ [d] -> isWhiteSpace d = false).
    { intros d s' E. apply (Hlast d (c :: s')). rewrite E. reflexivity. }
    simpl. destruct (isWhiteSpace c) eqn:Ec.
    + assert (Hs : s <> []).
      { intros E. rewrite (Hlast c []) in Ec; [discriminate |].
        rewrite E. reflexivity. }
      assert (Hrest : Forall (fun t => t <> []) (split_ws_go s [] true)).
      { apply IH; [intros E; contradiction | exact Hlast' | discriminate]. }
      destruct b; [exact Hrest |].
      constructor; [|exact Hrest].
      intros E. assert (Et : tok = []).
      { rewrite <- (rev_involutive tok), E. reflexivity. }
      destruct (Hhead eq_refl Et) as (d & s' & Ed & Hd).
      injection Ed as <- _. congruence.
    + apply IH; [discriminate | exact Hlast' | discriminate].
Qed.

Lemma tokens_nonempty (text : jsstring) :
  trim text <> [] -> Forall (fun t => t <> []) (tokens text).
Proof.
  intros Hne. unfold tokens, split_ws.
  destruct (trim_spec text) as (pre & post & _ & _ & _ & Hhd & Hlt).
  apply split_ws_go_nonempty.
  - intros E. contradiction.
  - exact Hlt.
  - intros _ _. destruct (trim text) as [|c s] eqn:E; [contradiction |].
    exists c, s. split; [reflexivity | apply (Hhd c s); reflexivity].
Qed.

(** X2.  An address is accepted exactly when its trimmed text contains a space
    character, no token ends in the concatenation pattern, and it is not a
    pair of tokens whose second ends in 시.  An accepted address has at
    least two tokens, and none of them is empty or contains white space. *)
Theorem accepted_addresses (text : jsstring) :
  (accepts text
   <-> In (code " ") (trim text)
       /\ ~ Exists ConcatTypo (tokens text)
       /\ ~ (exists a b, tokens text = [a; b] /\ Suffix (utf16 "시") b))
  /\ (accepts text ->
      (2 <= length (tokens text))%nat
      /\ Forall (fun t => t <> []
                          /\ Forall (fun c => isWhiteSpace c = false) t)
                (tokens text)).
Proof.
  assert (Hno : forall m, rejects text m -> accepts text -> False).
  { intros m R A. specialize (R (mkState [] [] [])).
    rewrite (A (mkState [] [] [])) in R. discriminate. }
  assert (Hiff : accepts text
                 <-> In (code " ") (trim text)
                     /\ ~ Exists ConcatTypo (tokens text)
                     /\ ~ (exists a b, tokens text = [a; b]
                                       /\ Suffix (utf16 "시") b)).
  { destruct (validate_cases text) as [C|[C|[C|[C|[C|C]]]]];
      cbv zeta in C; decompose [and] C; clear C;
      (split; [intros A | intros (I & T & S)]);
      try (exfalso; eapply Hno; eassumption);
      try contradiction; try assumption; try (split_all; assumption).
    - exfalso. match goal with H : trim text = [] |- _ =>
        rewrite H in I end. inversion I.
    - exfalso.
      pose proof (split_ws_two (trim text) (space_is_whitespace _ I)).
      unfold tokens in *. lia. }
  split; [exact Hiff |].
  intros A. apply Hiff in A as (I & _ & _).
  assert (Hne : trim text <> []) by (intros E; rewrite E in I; inversion I).
  split.
  - apply split_ws_two, space_is_whitespace, I.
  - pose proof (tokens_nonempty text Hne) as N.
    destruct (split_ws_pieces (trim text)) as [P _]. fold (tokens text) in P.
    rewrite List.Forall_forall in N, P |- *. intros t Ht. split; auto.
Qed.

End ValidatorMore.

(* ===================================================================== *)
(** ** The search form under typing and submitting *)
(* ===================================================================== *)

Section HomeFormTheorems.

Import Home HomeForm.

Lemma handleInputChange_clears (v : jsstring) (st : state) :
  snd (handleInputChange v st) = mkState v [] (searched st).
Proof.
  unfold handleInputChange. cbv zeta. simpl.
  destruct (errorMsg st) as [|c m] eqn:E; simpl; rewrite ?E; reflexivity.
Qed.

Lemma handleSubmit_cases (st : state) :
  (exists m, rejects (input st) m
             /\ snd (handleSubmit st)
                = mkState (input st) m (searched st))
  \/ (accepts (input st)
      /\ snd (handleSubmit st)
         = mkState (input st) (errorMsg st)
                   (searched st ++ [trim (input st)])).
Proof.
  unfold handleSubmit, mbind, M_bind, get_input.
  destruct (validate_cases (input st)) as [C|[C|[C|[C|[C|C]]]]];
    cbv zeta in C; decompose [and] C; clear C;
    match goal with
    | R : rejects _ ?m |- _ =>
      left; exists m; split; [exact R | rewrite (R st); reflexivity]
    | A : accepts _ |- _ =>
      right; split; [exact A | rewrite (A st); reflexivity]
    end.
Qed.

Lemma accepts_trim (text : jsstring) : accepts text -> accepts (trim text).
Proof.
  intros A st.
  rewrite (validate_of_trim (trim text) text (trim_idempotent text)).
  apply A.
Qed.

Lemma step_consistent (e : event) (st : state) :
  consistent st -> consistent (step e st).
Proof.
  intros [He Hs]. destruct e as [v|]; simpl.
  - rewrite handleInputChange_clears. split; [simpl; congruence | exact Hs].
  - destruct (handleSubmit_cases st) as [(m & R & ->) | (A & ->)]; simpl.
    + split; [intros _; exact R | exact Hs].
    + split; [exact He |].
      apply Forall_app. split; [exact Hs |].
      constructor; [|constructor].
      split; [apply accepts_trim; exact A | apply trim_idempotent].
Qed.

Lemma run_consistent (es : list event) (st : state) :
  consistent st -> consistent (run es st).
Proof.
  revert st; induction es as [|e es IH]; intros st H; simpl; [exact H |].
  apply IH, step_consistent, H.
Qed.

(** X3.  Whatever the user types and however often the form is submitted: a
    message on display is the reason for which the text now in the input
    is rejected; every search issued is for a trimmed address that passes
    validation; and after a keystroke no message is displayed. *)
Theorem search_form_consistent (address : jsstring) (es : list event) :
  let st := run es (initial address) in
  (errorMsg st <> [] -> rejects (input st) (errorMsg st))
  /\ Forall (fun r => accepts r /\ trim r = r) (searched st)
  /\ (forall v, errorMsg (run (es ++ [Change v]) (initial address)) = []).
Proof.
  cbv zeta.
  destruct (run_consistent es (initial address)) as [He Hs].
  { split; [simpl; congruence | constructor]. }
  split; [exact He |]. split; [exact Hs |].
  intros v. unfold run. rewrite fold_left_app. simpl.
  rewrite handleInputChange_clears. reflexivity.
Qed.

(** A rejected submit, a correction, an accepted submit. *)
Example search_form_example :
  let st1 := run [Change (utf16 "경기도 성남시"); Submit] (initial []) in
  let st2 := run [Change (utf16 "경기도 성남시 분당구 ")] st1 in
  let st3 := run [Submit] st2 in
  errorMsg st1 = msg_district /\ searched st1 = []
  /\ errorMsg st2 = []
  /\ errorMsg st3 = [] /\ searched st3 = [utf16 "경기도 성남시 분당구"].
Proof. vm_compute. split_all; reflexivity. Qed.

End HomeFormTheorems.

(* ===================================================================== *)
(** ** List-level update status *)
(* ===================================================================== *)

Section StatusTheorems.

Import Badges Status.
Context `{Host}.

Lemma updateType_is_spec (u : UpdateType) (x : option UpdateType) :
  updateType_is u x = true <-> x = Some u.
Proof. destruct u, x as [[|]|]; simpl; split; congruence. Qed.

Lemma some_recent_spec (clock : nat -> float) (u : UpdateType) (i : nat)
  (bs : list Benefit) :
  some_recent clock u i bs = true
  <-> exists j b, bs !! j = Some b
                  /\ Recency.isRecentUpdate (clock (i + j)%nat)
                                            (lastUpdated b) = true
                  /\ updateType b = Some u.
Proof.
  revert i; induction bs as [|b bs IH]; intros i; simpl.
  - split; [discriminate | intros (j & b & E & _); discriminate E].
  - destruct (Recency.isRecentUpdate (clock i) (lastUpdated b)
              && updateType_is u (updateType b)) eqn:E.
    + apply andb_true_iff in E as [E1 E2].
      apply updateType_is_spec in E2.
      split; [intros _ | reflexivity].
      exists 0%nat, b. rewrite Nat.add_0_r. auto.
    + rewrite IH. split.
      * intros (j & b' & Ej & R & U). exists (S j), b'.
        replace (i + S j)%nat with (S i + j)%nat by lia. auto.
      * intros (j & b' & Ej & R & U). destruct j as [|j]; simpl in Ej.
        -- injection Ej as <-. rewrite Nat.add_0_r in R.
           apply updateType_is_spec in U. rewrite R, U in E. discriminate.
        -- exists j, b'.
           replace (S i + j)%nat with (i + S j)%nat by lia. auto.
Qed.

Lemma some_recent_flagAt (clock : nat -> float) (u : UpdateType)
  (bs : list Benefit) :
  some_recent clock u 0 bs = flagAt u (computeCategoryBadges clock bs) ALL.
Proof.
  apply eq_true_iff_eq. unfold computeCategoryBadges.
  rewrite some_recent_spec, forEach_flagAt. unfold contributes. split.
  - intros (j & b & E & R & U). right. exists j, b. auto.
  - intros [E | (j & b & E & R & U & _)]; [|eauto].
    destruct u; unfold flagAt, newAt, updateAt in E;
      rewrite lookup_empty in E; discriminate.
Qed.

(** X4.  [checkUpdateStatus] is the aggregation collapsed to the whole list: on
    any list, its [hasNew] is the [hasNew] that [computeCategoryBadges]
    leaves at ALL, and likewise for [hasUpdate], when the benefits are
    classified at the same times; and each flag is set exactly when some
    benefit of the list is recent with that update type. *)
Theorem checkUpdateStatus_is_ALL_badge (clockNew clockUpdate : nat -> float)
  (bs : list Benefit) :
  hasNew (checkUpdateStatus clockNew clockUpdate bs)
  = newAt (computeCategoryBadges clockNew bs) ALL
  /\ hasUpdate (checkUpdateStatus clockNew clockUpdate bs)
     = updateAt (computeCategoryBadges clockUpdate bs) ALL
  /\ (hasNew (checkUpdateStatus clockNew clockUpdate bs) = true
      <-> exists j b, bs !! j = Some b
                      /\ Recency.isRecentUpdate (clockNew j) (lastUpdated b)
                         = true
                      /\ updateType b = Some NEW)
  /\ (hasUpdate (checkUpdateStatus clockNew clockUpdate bs) = true
      <-> exists j b, bs !! j = Some b
                      /\ Recency.isRecentUpdate (clockUpdate j)
                                                (lastUpdated b) = true
                      /\ updateType b = Some UPDATE).
Proof.
  unfold checkUpdateStatus. simpl. split_all.
  - apply (some_recent_flagAt clockNew NEW).
  - apply (some_recent_flagAt clockUpdate UPDATE).
  - apply (some_recent_spec clockNew NEW 0).
  - apply (some_recent_spec clockUpdate UPDATE 0).
Qed.

(** X5.  The dot of a list: red exactly when some benefit is recent and NEW
    (new takes precedence), blue exactly when none is but some benefit is
    recent and UPDATE, and no dot exactly when neither is the case. *)
Theorem StatusBadge_of_list (clockNew clockUpdate : nat -> float)
  (bs : list Benefit) :
  let s := checkUpdateStatus clockNew clockUpdate bs in
  let dot := StatusBadge (hasNew s) (hasUpdate s) in
  let some_new :=
    exists j b, bs !! j = Some b
                /\ Recency.isRecentUpdate (clockNew j) (lastUpdated b) = true
                /\ updateType b = Some NEW in
  let some_update :=
    exists j b, bs !! j = Some b
                /\ Recency.isRecentUpdate (clockUpdate j) (lastUpdated b)
                   = true
                /\ updateType b = Some UPDATE in
  (dot = Some RedDot <-> some_new)
  /\ (dot = Some BlueDot <-> ~ some_new /\ some_update)
  /\ (dot = None <-> ~ some_new /\ ~ some_update).
Proof.
  cbv zeta.
  destruct (checkUpdateStatus_is_ALL_badge clockNew clockUpdate bs)
    as (_ & _ & HN & HU).
  rewrite <- HN, <- HU. unfold StatusBadge.
  destruct (hasNew (checkUpdateStatus clockNew clockUpdate bs)),
    (hasUpdate (checkUpdateStatus clockNew clockUpdate bs)); simpl;
    split_all; split; intros; try discriminate; try reflexivity;
    try tauto; intuition discriminate.
Qed.

End StatusTheorems.

(* ===================================================================== *)
(** ** The three display groups *)
(* ===================================================================== *)

Section GroupTheorems.

Import ResultPage.

Lemma source_eqb_spec (a b : BenefitSource) :
  source_eqb a b = true <-> a = b.
Proof. destruct a, b; simpl; split; congruence. Qed.

(** X6.  The three groups of the result page partition the fetched list: every
    benefit is in exactly one group, the groups together are a
    rearrangement of the list, and each group keeps the order of the
    list. *)
Theorem display_groups_partition (benefits : list Benefit) :
  Permutation (nationalBenefits benefits ++ localBenefits benefits
               ++ privateBenefits benefits) benefits
  /\ (forall b, In b benefits ->
        (In b (nationalBenefits benefits) /\ source b = GOV_NATIONAL
         /\ ~ In b (localBenefits benefits)
         /\ ~ In b (privateBenefits benefits))
        \/ (In b (localBenefits benefits) /\ source b = GOV_LOCAL
            /\ ~ In b (nationalBenefits benefits)
            /\ ~ In b (privateBenefits benefits))
        \/ (In b (privateBenefits benefits) /\ source b = PRIVATE
            /\ ~ In b (nationalBenefits benefits)
            /\ ~ In b (localBenefits benefits)))
  /\ sublist (nationalBenefits benefits) benefits
  /\ sublist (localBenefits benefits) benefits
  /\ sublist (privateBenefits benefits) benefits.
Proof.
  unfold nationalBenefits, localBenefits, privateBenefits.
  split; [|split; [|split_all; apply filter_sublist]].
  - induction benefits as [|b bs IH]; simpl; [constructor |].
    destruct (source b); simpl.
    + constructor. exact IH.
    + rewrite <- Permutation_middle. constructor. exact IH.
    + rewrite app_assoc, <- Permutation_middle, <- app_assoc.
      constructor. exact IH.
  - intros b Hin. rewrite !filter_In, !source_eqb_spec.
    destruct (source b); intuition congruence.
Qed.

End GroupTheorems.

(* ===================================================================== *)
(** ** The latest update date *)
(* ===================================================================== *)

Section LatestTheorems.

Import LocalPage Latest.

(** The first element of a sorted array, for a comparator that is a total
    preorder: an element that must not follow any other, and the first of
    the array among those. *)
Lemma sort_first {A} (cmp : A -> A -> Z) :
  (forall a b, cmp a b <= 0 \/ cmp b a <= 0) ->
  (forall a b c, cmp a b <= 0 -> cmp b c <= 0 -> cmp a c <= 0) ->
  forall l, l <> [] ->
  exists pre x post t,
    l = pre ++ x :: post
    /\ sort cmp l = x :: t
    /\ (forall y, In y l -> cmp x y <= 0)
    /\ (forall y, In y pre -> 0 < cmp y x).
Proof.
  intros Htot Htrans. induction l as [|a l IH]; intros Hne; [congruence |].
  destruct l as [|a' l'].
  - exists [], a, [], []. split_all; try reflexivity.
    + intros y [<- | []]. destruct (Htot a a); assumption.
    + intros y [].
  - destruct IH as (pre & x & post & t & El & Es & Hmax & Hpre);
      [discriminate |].
    assert (Ei : sort cmp (a :: a' :: l') = insert cmp a (x :: t)).
    { change (sort cmp (a :: a' :: l'))
        with (insert cmp a (sort cmp (a' :: l'))).
      rewrite Es. reflexivity. }
    cbn [insert] in Ei. destruct (cmp a x <=? 0) eqn:E.
    + apply Z.leb_le in E. exists [], a, (a' :: l'), (x :: t).
      split_all; try reflexivity; try exact Ei.
      * intros y [<- | Hin]; [destruct (Htot a a); assumption |].
        apply (Htrans a x y E). apply Hmax. exact Hin.
      * intros y [].
    + apply Z.leb_gt in E. exists (a :: pre), x, post, (insert cmp a t).
      split_all.
      * rewrite El. reflexivity.
      * exact Ei.
      * intros y [<- | Hin]; [|apply Hmax; exact Hin].
        destruct (Htot x a); [assumption | lia].
      * intros y [<- | Hin]; [lia | apply Hpre; exact Hin].
Qed.

(** X7.  [getLatestUpdateDate], for a collation that is a total preorder:
    [null] exactly on the empty list; otherwise the [lastUpdated] field of
    a benefit of the list whose date (the empty string when absent) no
    other date exceeds, the first such benefit of the list. *)
Theorem getLatestUpdateDate_spec `{Collator} (benefits : list Benefit) :
  (forall a b, localeCompare a b <= 0 \/ localeCompare b a <= 0) ->
  (forall a b c, localeCompare a b <= 0 -> localeCompare b c <= 0 ->
                 localeCompare a c <= 0) ->
  (getLatestUpdateDate benefits = None <-> benefits = [])
  /\ (benefits <> [] ->
      exists pre x post,
        benefits = pre ++ x :: post
        /\ getLatestUpdateDate benefits = Some (lastUpdated x)
        /\ (forall y, In y benefits ->
              localeCompare (or_empty (lastUpdated y))
                            (or_empty (lastUpdated x)) <= 0)
        /\ (forall y, In y pre ->
              0 < localeCompare (or_empty (lastUpdated x))
                                (or_empty (lastUpdated y)))).
Proof.
  intros Htot Htrans.
  assert (Hfirst : benefits <> [] ->
            exists pre x post,
              benefits = pre ++ x :: post
              /\ getLatestUpdateDate benefits = Some (lastUpdated x)
              /\ (forall y, In y benefits -> compareLatest x y <= 0)
              /\ (forall y, In y pre -> 0 < compareLatest y x)).
  { intros Hne.
    destruct (sort_first compareLatest) with (l := benefits)
      as (pre & x & post & t & El & Es & Hmax & Hpre).
    - intros a b. apply Htot.
    - intros a b c Hab Hbc. unfold compareLatest in *. eauto.
    - exact Hne.
    - exists pre, x, post. split_all; try assumption.
      unfold getLatestUpdateDate. rewrite Es.
      destruct benefits; [congruence | reflexivity]. }
  split; [|exact Hfirst].
  split.
  - intros E. destruct benefits as [|b bs]; [reflexivity |].
    destruct Hfirst as (pre & x & post & _ & E' & _); [discriminate |].
    congruence.
  - intros ->. reflexivity.
Qed.

Lemma compare_units_total (a b : jsstring) :
  compare_units a b <= 0 \/ compare_units b a <= 0.
Proof.
  revert b; induction a as [|x a IH]; intros [|y b]; simpl; try lia.
  destruct (Z.ltb_spec x y), (Z.ltb_spec y x); try lia. apply IH.
Qed.

Lemma compare_units_trans (a b c : jsstring) :
  compare_units a b <= 0 -> compare_units b c <= 0 ->
  compare_units a c <= 0.
Proof.
  revert b c; induction a as [|x a IH]; intros [|y b] [|z c]; simpl;
    try lia.
  destruct (Z.ltb_spec x y), (Z.ltb_spec y x), (Z.ltb_spec y z),
    (Z.ltb_spec z y), (Z.ltb_spec x z), (Z.ltb_spec z x);
    try lia. apply IH.
Qed.

(** With code-unit collation: of the dates 2026.01.05, none, 2026.03.01
    and 2026.03.01 the latest is 2026.03.01. *)
Lemma getLatestUpdateDate_spec_witness :
  let benefits :=
    [dated "a" (Some (utf16 "2026.01.05")); dated "b" None;
     dated "c" (Some (utf16 "2026.03.01"));
     dated "d" (Some (utf16 "2026.03.01"))] in
  @getLatestUpdateDate unit_collator benefits
  = Some (Some (utf16 "2026.03.01"))
  /\ ((@getLatestUpdateDate unit_collator benefits = None
       <-> benefits = [])
      /\ (benefits <> [] ->
          exists pre x post,
            benefits = pre ++ x :: post
            /\ @getLatestUpdateDate unit_collator benefits
               = Some (lastUpdated x)
            /\ (forall y, In y benefits ->
                  compare_units (or_empty (lastUpdated y))
                                (or_empty (lastUpdated x)) <= 0)
            /\ (forall y, In y pre ->
                  0 < compare_units (or_empty (lastUpdated x))
                                    (or_empty (lastUpdated y))))).
Proof.
  cbv zeta. split; [reflexivity |].
  apply (@getLatestUpdateDate_spec unit_collator).
  - apply compare_units_total.
  - apply compare_units_trans.
Defined.

End LatestTheorems.

(* ===================================================================== *)
(** ** How filtering and envy sorting compose *)
(* ===================================================================== *)

Section CompositionTheorems.

Import LocalPage.

Lemma filter_comm {A} (p q : A -> bool) (l : list A) :
  List.filter p (List.filter q l) = List.filter q (List.filter p l).
Proof.
  rewrite !filter_twice. apply filter_ext. intros x. apply andb_comm.
Qed.

Lemma filter_idem {A} (p : A -> bool) (l : list A) :
  List.filter p (List.filter p l) = List.filter p l.
Proof.
  rewrite filter_twice. apply filter_ext. intros x. destruct (p x); reflexivity.
Qed.

Lemma filter_all {A} (p : A -> bool) (l : list A) :
  (forall x, p x = true) -> List.filter p l = l.
Proof.
  intros H. induction l as [|x l IH]; simpl; [reflexivity |].
  rewrite H, IH. reflexivity.
Qed.

Lemma keep_of_trim (s q q' : jsstring) (b : Benefit) :
  trim q = trim q' -> keep s q b = keep s q' b.
Proof. intros E. unfold keep. rewrite E. reflexivity. Qed.

(** X8.  The filter of the page as an operation on lists: with the sentinel
    전체 and a blank query it returns the list unchanged; only the trimmed
    query matters; filtering twice is filtering once; two filters commute;
    the filter of a concatenation is the concatenation of the filters; and
    the output is never longer than the input. *)
Theorem filteredBenefits_algebra (bs bs' : list Benefit)
  (s q s' q' : jsstring) :
  (trim q = [] -> filteredBenefits bs sido_all q = bs)
  /\ (trim q = trim q' ->
      filteredBenefits bs s q = filteredBenefits bs s q')
  /\ filteredBenefits (filteredBenefits bs s q) s q
     = filteredBenefits bs s q
  /\ filteredBenefits (filteredBenefits bs s q) s' q'
     = filteredBenefits (filteredBenefits bs s' q') s q
  /\ filteredBenefits (bs ++ bs') s q
     = filteredBenefits bs s q ++ filteredBenefits bs' s q
  /\ (length (filteredBenefits bs s q) <= length bs)%nat.
Proof.
  unfold filteredBenefits. split_all.
  - intros E. apply filter_all. intros b. unfold keep. rewrite E.
    reflexivity.
  - intros E. apply filter_ext. intros b. apply keep_of_trim, E.
  - apply filter_idem.
  - apply filter_comm.
  - apply List.filter_app.
  - apply List.filter_length_le.
Qed.

Lemma StronglySorted_filter {A} (R : A -> A -> Prop) (p : A -> bool)
  (l : list A) :
  StronglySorted R l -> StronglySorted R (List.filter p l).
Proof.
  induction 1 as [|x l Hs IH Hx]; simpl; [constructor |].
  destruct (p x); [|exact IH]. constructor; [exact IH |].
  rewrite List.Forall_forall in Hx |- *. intros y Hy.
  apply filter_In in Hy as [Hy _]. auto.
Qed.

Lemma sort_filter (p : Benefit -> bool) (l : list Benefit) :
  sort compareEnvy (List.filter p l) = List.filter p (sort compareEnvy l).
Proof.
  symmetry. apply stable_sorted_unique.
  - apply StronglySorted_filter, sort_sorted.
  - apply sort_sorted.
  - intros n. rewrite sort_with_key. unfold with_key.
    rewrite filter_comm. fold (with_key n (sort compareEnvy l)).
    rewrite sort_with_key. unfold with_key. apply filter_comm.
Qed.

Lemma sort_of_sorted (l : list Benefit) :
  StronglySorted desc l -> sort compareEnvy l = l.
Proof.
  intros S. symmetry. apply stable_sorted_unique;
    [exact S | apply sort_sorted |].
  intros n. symmetry. apply sort_with_key.
Qed.

(** X9.  Envy sorting and filtering commute: sorting the filtered list gives
    the filtered sorted list.  Sorting a list already in envy order changes
    nothing, so sorting twice is sorting once; the sort keeps the number of
    benefits; and the benefit it puts first has the highest count. *)
Theorem envy_sort_composition (bs : list Benefit) (s q : jsstring) :
  sort compareEnvy (filteredBenefits bs s q)
  = filteredBenefits (sort compareEnvy bs) s q
  /\ (StronglySorted desc bs -> sort compareEnvy bs = bs)
  /\ sort compareEnvy (sort compareEnvy bs) = sort compareEnvy bs
  /\ length (sort compareEnvy bs) = length bs
  /\ (forall first rest b,
        sort compareEnvy bs = first :: rest -> In b bs ->
        envy b <= envy first).
Proof.
  split_all.
  - apply sort_filter.
  - apply sort_of_sorted.
  - apply sort_of_sorted, sort_sorted.
  - apply Permutation_length, sort_Permutation.
  - intros first rest b E Hin.
    pose proof (sort_sorted bs) as S. rewrite E in S.
    apply StronglySorted_inv in S as [_ Hfirst].
    assert (Hb : In b (first :: rest)).
    { rewrite <- E. apply (Permutation_in b (Permutation_sym (sort_Permutation bs))).
      exact Hin. }
    destruct Hb as [<- | Hb]; [lia |].
    rewrite List.Forall_forall in Hfirst. apply (Hfirst b Hb).
Qed.

End CompositionTheorems.

(* ===================================================================== *)
(** ** The signup form *)
(* ===================================================================== *)

Section SignupTheorems.

Import Signup.

Lemma truthy_spec (s : jsstring) : truthy s = true <-> s <> [].
Proof.
  destruct s; cbn; split; intros H; try reflexivity; try discriminate.
  contradiction.
Qed.

Lemma padStart_two (c : Z) (s : jsstring) :
  s <> [] -> (length s <= 2)%nat ->
  length (padStart 2 c s) = 2%nat /\ Suffix s (padStart 2 c s).
Proof.
  intros Hne Hlen. unfold padStart, Suffix. split; [|eauto].
  rewrite length_app, repeat_length.
  destruct s; [congruence | simpl in *; lia].
Qed.

Lemma step_bounds (e : event) (st : state) :
  (length (year st) <= 4 /\ length (month st) <= 2
   /\ length (day st) <= 2)%nat ->
  (length (year (step e st)) <= 4 /\ length (month (step e st)) <= 2
   /\ length (day (step e st)) <= 2)%nat.
Proof.
  intros (Hy & Hm & Hd).
  destruct e as [v|v|v|v|v|c|c]; simpl; try (split_all; assumption).
  - unfold handleYearChange, slice0. cbv zeta.
    pose proof (firstn_le_length 4 v).
    destruct (length (firstn 4 v) =? 4)%nat; simpl; split_all; assumption.
  - unfold handleMonthChange, slice0. cbv zeta.
    pose proof (firstn_le_length 2 v).
    destruct (length (firstn 2 v) =? 2)%nat; simpl; split_all; assumption.
  - unfold handleDayChange, slice0. cbv zeta.
    pose proof (firstn_le_length 2 v). simpl. split_all; assumption.
  - unfold handleNotPregnantChange. cbv zeta.
    destruct c; simpl; split_all; (assumption || lia).
Qed.

Lemma run_bounds (es : list event) (st : state) :
  (length (year st) <= 4 /\ length (month st) <= 2
   /\ length (day st) <= 2)%nat ->
  (length (year (run es st)) <= 4 /\ length (month (run es st)) <= 2
   /\ length (day (run es st)) <= 2)%nat.
Proof.
  revert st; induction es as [|e es IH]; intros st H; simpl; [exact H |].
  apply IH, step_bounds, H.
Qed.

(** X10.  However the signup form is filled in, the year holds at most four
    code units and the month and the day at most two; a due date is built
    only when the "not pregnant" box is clear and the three fields are
    filled, and then it is the year, a hyphen, two code units ending in the
    month, a hyphen, and two code units ending in the day. *)
Theorem signup_due_date_shape (baseInfo : Users.BaseInfo)
  (es : list event) :
  let st := run es (initial baseInfo) in
  (length (year st) <= 4)%nat
  /\ (length (month st) <= 2)%nat
  /\ (length (day st) <= 2)%nat
  /\ (isNotPregnant st = true -> formattedDate st = None)
  /\ (forall d, formattedDate st = Some d ->
        year st <> [] /\ month st <> [] /\ day st <> []
        /\ exists mm dd,
             d = year st ++ utf16 "-" ++ mm ++ utf16 "-" ++ dd
             /\ length mm = 2%nat /\ Suffix (month st) mm
             /\ length dd = 2%nat /\ Suffix (day st) dd
             /\ length d = (length (year st) + 6)%nat).
Proof.
  cbv zeta.
  destruct (run_bounds es (initial baseInfo)) as (Hy & Hm & Hd);
    [simpl; lia |].
  set (st := run es (initial baseInfo)) in *.
  split_all; try assumption.
  - intros E. unfold formattedDate. rewrite E. reflexivity.
  - intros d. unfold formattedDate.
    destruct (isNotPregnant st); [discriminate |]. cbn [negb andb].
    destruct (truthy (year st)) eqn:Ty; [|discriminate].
    destruct (truthy (month st)) eqn:Tm; [|discriminate].
    destruct (truthy (day st)) eqn:Td; [|discriminate].
    apply truthy_spec in Ty, Tm, Td. cbn [andb].
    intros E. injection E as <-.
    destruct (padStart_two (code "0") (month st) Tm Hm) as [Lm Sm].
    destruct (padStart_two (code "0") (day st) Td Hd) as [Ld Sd].
    split_all; try assumption.
    exists (padStart 2 (code "0") (month st)),
      (padStart 2 (code "0") (day st)).
    split_all; try assumption; try reflexivity.
    rewrite length_app. cbn [length]. rewrite length_app. cbn [length].
    rewrite Lm, Ld. lia.
Qed.

(** April the 7th, typed as 2027, 4, 7. *)
Example signup_due_date_example :
  formattedDate
    (run [YearChange (utf16 "20271"); MonthChange (utf16 "4");
          DayChange (utf16 "7")]
         (initial (Users.mkBaseInfo (utf16 "k1") None None)))
  = Some (utf16 "2027-04-07").
Proof. reflexivity. Qed.

(** The four ways a submit can go. *)
Lemma submit_cases (baseInfo : Users.BaseInfo) (answer : availability)
  (st : state) :
  (trim (nickname st) = []
   /\ handleSubmit baseInfo answer st
      = (setNicknameError msg_nickname_required (setNicknameError [] st),
         None))
  \/ (trim (nickname st) <> [] /\ privacyAgreed st = false
      /\ handleSubmit baseInfo answer st
         = (emit (Alert msg_privacy) (setNicknameError [] st), None))
  \/ (trim (nickname st) <> [] /\ privacyAgreed st = true
      /\ answer <> Available
      /\ handleSubmit baseInfo answer st
         = (setSubmitting false
              (match answer with
               | Taken => setNicknameError msg_nickname_taken
               | _ => emit (Alert msg_failed)
               end (setSubmitting true (setNicknameError [] st))),
            None))
  \/ (trim (nickname st) <> [] /\ privacyAgreed st = true
      /\ answer = Available
      /\ handleSubmit baseInfo answer st
         = (setSubmitting true (setNicknameError [] st),
            Some (Users.mkUser (Users.base_id baseInfo)
                               (trim (nickname st))
                               (Users.base_email baseInfo)
                               (formattedDate st)
                               (or_undefined (address st)) true))).
Proof.
  unfold handleSubmit. cbv zeta.
  pose proof (truthy_spec (trim (nickname st))) as T.
  destruct (truthy (trim (nickname st))); cbn [negb].
  2: { left. split; [|reflexivity].
       destruct (trim (nickname st)); [reflexivity |].
       assert (false = true) by (apply T; discriminate). discriminate. }
  assert (trim (nickname st) <> []) by (apply T; reflexivity).
  right. destruct (privacyAgreed st); cbn [negb].
  2: { left. split_all; (assumption || reflexivity). }
  right. destruct answer.
  - right. split_all; (assumption || reflexivity).
  - left. split_all; try assumption; try reflexivity. discriminate.
  - left. split_all; try assumption; try reflexivity. discriminate.
Qed.

(** X11.  A signup submit schedules the saving of a user exactly when the
    trimmed nickname is not empty, the privacy box is ticked and the
    service answers that the nickname is free.  The saved user has the
    trimmed nickname, [privacyAgreed] set, no address rather than an empty
    one, and no due date when the "not pregnant" box is ticked.  A blank
    nickname is reported in the field, without an alert; and after a
    refusal or a failure of the service the form is no longer
    submitting. *)
Theorem signup_submit_outcome (baseInfo : Users.BaseInfo)
  (answer : availability) (st : state) :
  let st' := fst (handleSubmit baseInfo answer st) in
  let saved := snd (handleSubmit baseInfo answer st) in
  (saved <> None
   <-> trim (nickname st) <> [] /\ privacyAgreed st = true
       /\ answer = Available)
  /\ (forall u, saved = Some u ->
        Users.id u = Users.base_id baseInfo
        /\ Users.nickname u = trim (nickname st)
        /\ Users.nickname u <> []
        /\ trim (Users.nickname u) = Users.nickname u
        /\ Users.privacyAgreed u = true
        /\ Users.address u <> Some []
        /\ (address st <> [] -> Users.address u = Some (address st))
        /\ Users.dueDate u = formattedDate st
        /\ (isNotPregnant st = true -> Users.dueDate u = None)
        /\ submitting st' = true)
  /\ (trim (nickname st) = [] ->
      nicknameError st' = msg_nickname_required
      /\ effects st' = effects st /\ submitting st' = submitting st)
  /\ (trim (nickname st) <> [] -> privacyAgreed st = false ->
      effects st' = effects st ++ [Alert msg_privacy]
      /\ nicknameError st' = [] /\ submitting st' = submitting st)
  /\ (trim (nickname st) <> [] -> privacyAgreed st = true ->
      answer <> Available -> submitting st' = false).
Proof.
  cbv zeta.
  pose proof (submit_cases baseInfo answer st) as C.
  pose proof (truthy_spec (address st)) as Ta.
  destruct C
    as [(N & ->) | [(N & P & ->) | [(N & P & A & ->) | (N & P & A & ->)]]];
    cbn [fst snd].
  - split_all.
    + split; [congruence | tauto].
    + discriminate.
    + intros _. split_all; reflexivity.
    + tauto.
    + tauto.
  - split_all.
    + split; [congruence | intros (_ & P' & _); congruence].
    + discriminate.
    + tauto.
    + intros _ _. split_all; reflexivity.
    + congruence.
  - split_all.
    + split; [intros E; exfalso; apply E; reflexivity |].
      intros (_ & _ & A'). contradiction.
    + discriminate.
    + tauto.
    + congruence.
    + intros _ _ _. destruct answer; [contradiction | | ]; reflexivity.
  - split_all.
    + split; [auto | discriminate].
    + intros u E. injection E as <-. cbn. unfold or_undefined.
      split_all; try reflexivity; try assumption.
      * apply trim_idempotent.
      * destruct (truthy (address st)) eqn:Ea; [|discriminate].
        intros E. injection E as E. apply Ta in E; [tauto | reflexivity].
      * intros Ha. destruct (truthy (address st)); [reflexivity |].
        exfalso. apply Ta in Ha. discriminate.
      * intros E. unfold formattedDate. rewrite E. reflexivity.
    + tauto.
    + congruence.
    + tauto.
Qed.

End SignupTheorems.

(* ===================================================================== *)
(** ** Navigation *)
(* ===================================================================== *)

Section AppTheorems.

Import App.

Lemma accepted_trim_nonempty (text : jsstring) :
  Home.accepts text -> trim text <> [].
Proof.
  intros A E.
  assert (R : Home.rejects text Home.msg_required).
  { intros st. unfold Home.validateSearchInput. rewrite E. reflexivity. }
  specialize (R (Home.mkState [] [] [])).
  rewrite (A (Home.mkState [] [] [])) in R. discriminate.
Qed.

(** X12.  In every state the application can reach, the page it shows has what
    it needs: the "my info" page a logged-in user, the signup page the
    login information, and the result pages a region that is not empty.
    So the two guarded pages are never left blank, and benefits are never
    fetched for the empty region. *)
Theorem navigation_invariant (st : state) :
  reachable st ->
  (page st = MY_INFO -> user st <> None)
  /\ (page st = SIGNUP -> loginBaseInfo st <> None)
  /\ (page st = RESULT \/ page st = ALL_LOCAL -> region st <> []).
Proof.
  induction 1 as [|st e R (I1 & I2 & I3) En].
  - simpl. split_all; [discriminate .. | intros [E | E]; discriminate E].
  - assert (Hplain : forall p,
              p = HOME \/ p = LOGIN ->
              forall st', page st' = p ->
              (page st' = MY_INFO -> user st' <> None)
              /\ (page st' = SIGNUP -> loginBaseInfo st' <> None)
              /\ (page st' = RESULT \/ page st' = ALL_LOCAL ->
                  region st' <> [])).
    { intros p Hp st' E. rewrite E.
      destruct Hp as [-> | ->];
        (split_all; [discriminate .. | intros [E' | E']; discriminate E']). }
    destruct e as [stored | r | | | | b | | u | | | | | | u | | | | ];
      simpl in En.
    + destruct stored as [u|]; simpl;
        [split_all; [intros _; discriminate | exact I2 | exact I3]
        | split_all; assumption].
    + destruct En as [_ (text & A & ->)]. simpl.
      split_all; [discriminate .. |].
      intros _. apply accepted_trim_nonempty, A.
    + apply (Hplain LOGIN); auto.
    + apply (Hplain HOME); auto.
    + destruct En as [_ Eu]. simpl.
      split_all; [intros _; exact Eu | discriminate
                 | intros [E | E]; discriminate E].
    + simpl. split_all; [discriminate | intros _; discriminate
                        | intros [E | E]; discriminate E].
    + apply (Hplain HOME); auto.
    + change (handle (SignupComplete u) st)
        with (handleSignupComplete u st).
      unfold handleSignupComplete. cbv zeta.
      destruct (Users.address u) as [a|];
        [destruct (Signup.truthy a) eqn:Et |];
        try solve [apply (Hplain HOME); auto].
      simpl. split_all; [discriminate .. |].
      intros _. apply truthy_spec. exact Et.
    + apply (Hplain HOME); auto.
    + apply (Hplain HOME); auto.
    + simpl. split_all; [discriminate .. |].
      intros _. apply I3. left. exact En.
    + apply (Hplain HOME); auto.
    + cbn [handle]. unfold goMyPage. destruct (user st) eqn:Eu.
      * simpl. split_all; [intros _; rewrite Eu; discriminate | discriminate
                          | intros [E | E]; discriminate E].
      * apply (Hplain LOGIN); auto.
    + apply (Hplain HOME); auto.
    + apply (Hplain HOME); auto.
    + simpl. split_all; [discriminate .. |].
      intros _. apply I3. right. exact En.
    + apply (Hplain HOME); auto.
    + cbn [handle]. unfold goMyPage. destruct (user st) eqn:Eu.
      * simpl. split_all; [intros _; rewrite Eu; discriminate | discriminate
                          | intros [E | E]; discriminate E].
      * apply (Hplain LOGIN); auto.
Qed.

Lemma navigation_invariant_witness :
  let st := handle ViewAllLocal
              (handle (Search (utf16 "서울시 송파구")) initial) in
  (page st = MY_INFO -> user st <> None)
  /\ (page st = SIGNUP -> loginBaseInfo st <> None)
  /\ (page st = RESULT \/ page st = ALL_LOCAL -> region st <> []).
Proof.
  cbv zeta. apply navigation_invariant.
  apply reach_step; [apply reach_step; [apply reach_initial |] |].
  - split; [reflexivity |]. exists (utf16 " 서울시 송파구 ").
    split; [intros st; vm_compute; reflexivity | reflexivity].
  - reflexivity.
Defined.

End AppTheorems.

(* ===================================================================== *)
(** ** The badges do not depend on the order of the benefits *)
(* ===================================================================== *)

Section BadgeOrderTheorems.

Import Badges.
Context `{Host}.

Lemma contributes_somewhere (now : float) (bs : list Benefit)
  (u : UpdateType) (k : CategoryType) :
  (exists j b, bs !! j = Some b /\ contributes now b u k)
  <-> exists b, In b bs /\ contributes now b u k.
Proof.
  split.
  - intros (j & b & E & C). exists b. split; [|exact C].
    apply list_elem_of_In, list_elem_of_lookup. eauto.
  - intros (b & Hin & C).
    apply list_elem_of_In, list_elem_of_lookup in Hin as [j E]. eauto.
Qed.

Lemma badge_by_flags (m m' : badges) (k : CategoryType) :
  (is_Some (m !! k) <-> is_Some (m' !! k)) ->
  (forall u, flagAt u m k = flagAt u m' k) ->
  m !! k = m' !! k.
Proof.
  intros Hdom Hflag.
  pose proof (Hflag NEW) as HN. pose proof (Hflag UPDATE) as HU.
  unfold flagAt, newAt, updateAt in HN, HU.
  destruct (m !! k) as [[n v]|] eqn:E, (m' !! k) as [[n' v']|] eqn:E';
    simpl in *.
  - congruence.
  - exfalso. destruct Hdom as [Hd _].
    destruct Hd as [x Hx]; [eauto | discriminate].
  - exfalso. destruct Hdom as [_ Hd].
    destruct Hd as [x Hx]; [eauto | discriminate].
  - reflexivity.
Qed.

(** X13.  When all benefits are classified at the same instant, the badge
    mapping of a list is that of any rearrangement of it: the order in
    which the benefits were fetched does not show in the badges. *)
Theorem badges_order_independent (now : float) (bs bs' : list Benefit) :
  Permutation bs bs' ->
  computeCategoryBadges (fun _ => now) bs
  = computeCategoryBadges (fun _ => now) bs'.
Proof.
  intros P. apply map_eq. intros k. unfold computeCategoryBadges.
  assert (Hin : forall b, In b bs <-> In b bs').
  { intros b. split; apply Permutation_in;
      [exact P | apply Permutation_sym, P]. }
  apply badge_by_flags.
  - rewrite !forEach_dom. split; intros [E | (b & Hb & C)]; auto;
      right; exists b; (split; [apply Hin; exact Hb | exact C]).
  - intros u. apply eq_true_iff_eq. rewrite !forEach_flagAt.
    rewrite !(contributes_somewhere now). split;
      (intros [E | (b & Hb & C)]; [left; exact E |]);
      right; exists b; (split; [apply Hin; exact Hb | exact C]).
Qed.

End BadgeOrderTheorems.

(** On the UTC host, with the clock at 2026-11-03T00:00:00Z. *)
Lemma badges_order_independent_witness :
  @Badges.computeCategoryBadges UTCHost.host (fun _ => 1793664000000%float)
    [free_new_example; LocalPage.benefit "2" None None]
  = @Badges.computeCategoryBadges UTCHost.host
      (fun _ => 1793664000000%float)
      [LocalPage.benefit "2" None None; free_new_example].
Proof.
  apply (@badges_order_independent UTCHost.host). apply perm_swap.
Defined.
